(** * Flappy Bird: the simulation engine of [src/app/page.tsx]

    A shallow embedding of the frame transition [advanceState], of the
    callbacks the page component passes to it ([incrementScore], [endGame])
    and of the input handlers ([startGame], [handleFlap]).

    Numbers.  A JavaScript [number] is modelled as an exact rational ([Q]):
    every constant of the source is a decimal, and the engine only adds,
    subtracts, multiplies and compares.  Rounding, infinities and NaN are
    outside the model; in particular [BIRD_X] is 117.6 here and the nearest
    double to it in the code, and a sum with a term too small to register in
    double precision still changes here.  Fields that a transition leaves alone are compared
    with Leibniz equality, computed values with [==].

    Randomness.  [Math.random()] is an argument [rnd]: the value the call
    would return, consumed by at most one spawn per frame.

    Mutation.  The game state is one object shared by the engine and by the
    callbacks; a callback is a transformer of the whole store (the game object
    together with the state of its closure), and the engine goes on from the
    store the callback leaves behind. *)

From Stdlib Require Import QArith Qabs Qminmax Lqa Lia ZArith List Bool.
From Stdlib Require PrimFloat String.
From Stdlib Require Import Sorted.
Import ListNotations String.StringSyntax.

Open Scope Q_scope.

(** ** Comparisons of the source, as boolean tests *)

Definition Qltb (a b : Q) : bool := negb (Qle_bool b a).
Definition Qgtb (a b : Q) : bool := Qltb b a.
Definition Qleb (a b : Q) : bool := Qle_bool a b.
Definition Qgeb (a b : Q) : bool := Qle_bool b a.

(** ** World constants (lines 14-25) *)

Definition CANVAS_WIDTH : Q := 420.
Definition CANVAS_HEIGHT : Q := 640.
Definition GROUND_HEIGHT : Q := 90.
Definition BIRD_X : Q := CANVAS_WIDTH * 0.28.
Definition BIRD_RADIUS : Q := 16.
Definition GRAVITY : Q := 1800.
Definition FLAP_STRENGTH : Q := -620.
Definition MAX_DROP_SPEED : Q := 820.
Definition PIPE_WIDTH : Q := 78.
Definition PIPE_GAP : Q := 155.
Definition PIPE_SPEED : Q := 180.
Definition PIPE_INTERVAL : Q := 1.45.

(** ** Data model (lines 27-41) *)

Record Pipe : Type := mkPipe {
  x : Q;
  gapCenter : Q;
  passed : bool
}.

Record GameState : Type := mkGameState {
  birdY : Q;
  birdVelocity : Q;
  pipes : list Pipe;
  spawnTimer : Q;
  lastTime : Q;
  running : bool;
  wingTimer : Q
}.

(** Field assignments [state.f = v]. *)

Definition set_x (v : Q) (p : Pipe) : Pipe :=
  mkPipe v (gapCenter p) (passed p).
Definition set_passed (v : bool) (p : Pipe) : Pipe :=
  mkPipe (x p) (gapCenter p) v.

Definition set_birdY (v : Q) (s : GameState) : GameState :=
  mkGameState v (birdVelocity s) (pipes s) (spawnTimer s) (lastTime s)
              (running s) (wingTimer s).
Definition set_birdVelocity (v : Q) (s : GameState) : GameState :=
  mkGameState (birdY s) v (pipes s) (spawnTimer s) (lastTime s)
              (running s) (wingTimer s).
Definition set_pipes (v : list Pipe) (s : GameState) : GameState :=
  mkGameState (birdY s) (birdVelocity s) v (spawnTimer s) (lastTime s)
              (running s) (wingTimer s).
Definition set_spawnTimer (v : Q) (s : GameState) : GameState :=
  mkGameState (birdY s) (birdVelocity s) (pipes s) v (lastTime s)
              (running s) (wingTimer s).
Definition set_lastTime (v : Q) (s : GameState) : GameState :=
  mkGameState (birdY s) (birdVelocity s) (pipes s) (spawnTimer s) v
              (running s) (wingTimer s).
Definition set_running (v : bool) (s : GameState) : GameState :=
  mkGameState (birdY s) (birdVelocity s) (pipes s) (spawnTimer s) (lastTime s)
              v (wingTimer s).
Definition set_wingTimer (v : Q) (s : GameState) : GameState :=
  mkGameState (birdY s) (birdVelocity s) (pipes s) (spawnTimer s) (lastTime s)
              (running s) v.

(** [createInitialState] (lines 43-53). *)
Definition createInitialState : GameState :=
  {| birdY := CANVAS_HEIGHT / 2;
     birdVelocity := 0;
     pipes := [];
     spawnTimer := 0;
     lastTime := 0;
     running := false;
     wingTimer := 0 |}.

(** [randomGapCenter] (lines 55-59); [rnd] stands for [Math.random()]. *)
Definition randomGapCenter (rnd : Q) : Q :=
  let min := PIPE_GAP / 2 + 40 in
  let max := CANVAS_HEIGHT - GROUND_HEIGHT - PIPE_GAP / 2 - 40 in
  min + rnd * (max - min).

(** ** The collision test of the loop body (lines 97-105) *)

Definition gapTop (pipe : Pipe) : Q := gapCenter pipe - PIPE_GAP / 2.
Definition gapBottom (pipe : Pipe) : Q := gapCenter pipe + PIPE_GAP / 2.

Definition overlapsHorizontally (pipe : Pipe) : bool :=
  Qgtb (BIRD_X + BIRD_RADIUS) (x pipe) &&
  Qltb (BIRD_X - BIRD_RADIUS) (x pipe + PIPE_WIDTH).

Definition hitsPipe (state : GameState) (pipe : Pipe) : bool :=
  overlapsHorizontally pipe &&
  (Qltb (birdY state - BIRD_RADIUS) (gapTop pipe) ||
   Qgtb (birdY state + BIRD_RADIUS) (gapBottom pipe)).

(** The scoring test (line 92). *)
Definition crossesBird (pipe : Pipe) : bool :=
  negb (passed pipe) && Qltb (x pipe + PIPE_WIDTH) (BIRD_X - BIRD_RADIUS).

(** ** Stores and callbacks *)

Section Engine.

(** [X] is whatever the callbacks close over besides the game object. *)
Context {X : Type}.

Definition Store : Type := (GameState * X)%type.
Definition Callback : Type := Store -> Store.

(** A mutation of the game object inside the store. *)
Definition upd (f : GameState -> GameState) (w : Store) : Store :=
  (f (fst w), snd w).

(** The [for (const pipe of state.pipes)] loop (lines 89-111).  [done] are
    the pipes already visited (after their mutation), [todo] the ones still
    to visit; the array of the store is [done ++ todo] throughout, written
    back after each in-place mutation of a pipe.  The result carries [true]
    when the loop left the function through the [return] of line 109.

    The callbacks of this program never touch the pipe objects; the loop
    keeps iterating over the objects it started with. *)
Fixpoint pipeLoop (dt : Q) (onScore onCrash : Callback)
         (done todo : list Pipe) (w : Store) : bool * Store :=
  match todo with
  | [] => (false, w)
  | pipe :: rest =>
      let pipe1 := set_x (x pipe - PIPE_SPEED * dt) pipe in
      let w1 := upd (set_pipes (done ++ pipe1 :: rest)) w in
      let scored := crossesBird pipe1 in
      let pipe2 := if scored then set_passed true pipe1 else pipe1 in
      let w2 := if scored
                then onScore (upd (set_pipes (done ++ pipe2 :: rest)) w1)
                else w1 in
      if hitsPipe (fst w2) pipe2
      then (true, onCrash w2)
      else pipeLoop dt onScore onCrash (done ++ [pipe2]) rest w2
  end.

(** [advanceState] (lines 61-131). *)
Definition advanceState (rnd : Q) (w : Store) (dt : Q)
           (onScore onCrash : Callback) : Store :=
  if negb (running (fst w)) then
    upd (fun s => set_wingTimer (wingTimer s + dt) s) w
  else
    let w := upd (fun s => set_spawnTimer (spawnTimer s + dt) s) w in
    let w := upd (fun s => set_wingTimer (wingTimer s + dt) s) w in
    let w := upd (fun s => set_birdVelocity (birdVelocity s + GRAVITY * dt) s) w in
    let w := if Qgtb (birdVelocity (fst w)) MAX_DROP_SPEED
             then upd (set_birdVelocity MAX_DROP_SPEED) w
             else w in
    let w := upd (fun s => set_birdY (birdY s + birdVelocity s * dt) s) w in
    let w := if Qgeb (spawnTimer (fst w)) PIPE_INTERVAL
             then
               let w := upd (fun s => set_spawnTimer (spawnTimer s - PIPE_INTERVAL) s) w in
               upd (fun s => set_pipes
                      (pipes s ++ [ {| x := CANVAS_WIDTH + PIPE_WIDTH;
                                       gapCenter := randomGapCenter rnd;
                                       passed := false |} ]) s) w
             else w in
    match pipeLoop dt onScore onCrash [] (pipes (fst w)) w with
    | (true, w) => w
    | (false, w) =>
        let w := upd (fun s => set_pipes
                        (filter (fun pipe => Qgtb (x pipe + PIPE_WIDTH) (- PIPE_WIDTH))
                                (pipes s)) s) w in
        let ceilingHit := Qleb (birdY (fst w) - BIRD_RADIUS) 0 in
        let groundY := CANVAS_HEIGHT - GROUND_HEIGHT in
        let groundHit := Qgeb (birdY (fst w) + BIRD_RADIUS) groundY in
        if ceilingHit then
          let w := upd (set_birdY BIRD_RADIUS) w in
          let w := upd (set_birdVelocity 0) w in
          onCrash w
        else if groundHit then
          let w := upd (set_birdY (groundY - BIRD_RADIUS)) w in
          let w := upd (set_birdVelocity 0) w in
          onCrash w
        else w
    end.

End Engine.

Arguments Store : clear implicits.
Arguments Callback : clear implicits.

(** ** The page component: what the callbacks close over (lines 262-403) *)

(** The [status] state of the component. *)
Inductive Status : Type := Idle | Running | Over.

Definition Status_eqb (a b : Status) : bool :=
  match a, b with
  | Idle, Idle | Running, Running | Over, Over => true
  | _, _ => false
  end.

(** [score] stands for the [score] state and [scoreRef], [bestScore] for the
    [bestScore] state and [bestRef] (each pair is always written together);
    [storedBest] is the last value written under the key [flappy-bird-best]. *)
Record Hooks : Type := mkHooks {
  status : Status;
  score : Z;
  bestScore : Q;
  storedBest : option Z
}.

Definition App : Type := Store Hooks.

(** [incrementScore] (lines 300-315), the [onScore] of the component.  It
    reads and writes the score and the best score only; [incrementHooks] is
    its body. *)
Definition incrementHooks (h : Hooks) : Hooks :=
  let next := (score h + 1)%Z in
  if Qgtb (inject_Z next) (bestScore h)
  then mkHooks (status h) next (inject_Z next) (Some next)
  else mkHooks (status h) next (bestScore h) (storedBest h).

Definition incrementScore : Callback Hooks :=
  fun w => (fst w, incrementHooks (snd w)).

(** [endGame] (lines 317-325), the [onCrash] of the component. *)
Definition endGame : Callback Hooks :=
  fun w =>
    let state := fst w in
    let h := snd w in
    if negb (running state) then w
    else (set_lastTime 0 (set_running false state),
          mkHooks Over (score h) (bestScore h) (storedBest h)).

(** [startGame] (lines 364-393): the reset. *)
Definition startGame (withFlap : bool) (w : App) : App :=
  let fresh := createInitialState in
  let fresh := set_running true fresh in
  let fresh := if withFlap then set_birdVelocity FLAP_STRENGTH fresh else fresh in
  let h := snd w in
  (fresh, mkHooks Running 0%Z (bestScore h) (storedBest h)).

(** The flap proper: the branch of [handleFlap] taken during a run
    (lines 401-402). *)
Definition flap (w : App) : App :=
  upd (set_birdVelocity FLAP_STRENGTH) w.

(** [handleFlap] (lines 395-403), reading the status that was last set.
    The handler of the source reads the status of the render that created it,
    which lags behind between a [setStatus] and the next render:
    [handleFlapSeen] below is the handler with that status as an argument. *)
Definition handleFlap (w : App) : App :=
  if negb (Status_eqb (status (snd w)) Running)
  then startGame true w
  else flap w.

(** One frame of the component: [advanceState] as [step] calls it
    (line 352). *)
Definition advance (rnd : Q) (dt : Q) (w : App) : App :=
  advanceState rnd w dt incrementScore endGame.

(** [step] (lines 327-362), without the drawing and the scheduling of the
    next frame. *)
Definition step (rnd : Q) (time : Q) (w : App) : App :=
  if negb (running (fst w)) then w
  else
    let w := if Qeq_bool (lastTime (fst w)) 0
             then upd (set_lastTime time) w else w in
    let delta := Qmin ((time - lastTime (fst w)) / 1000) 0.05 in
    let w := upd (set_lastTime time) w in
    advance rnd delta w.

(** The inputs of a session, for statements about sequences of calls. *)
Inductive Action : Type :=
| Advance (rnd dt : Q)
| Flap
| Reset (withFlap : bool).

Definition perform (a : Action) (w : App) : App :=
  match a with
  | Advance rnd dt => advance rnd dt w
  | Flap => handleFlap w
  | Reset withFlap => startGame withFlap w
  end.

Definition performAll (l : list Action) (w : App) : App :=
  fold_left (fun w a => perform a w) l w.

(** The component right after mount. *)
Definition mounted : App :=
  (createInitialState, mkHooks Idle 0%Z 0 None).

(** ** Recording callbacks

    Callbacks that only append to a log, to count invocations. *)

Inductive Event : Type := Scored | Crashed.

Definition logScore : Callback (list Event) :=
  fun w => (fst w, snd w ++ [Scored]).
Definition logCrash : Callback (list Event) :=
  fun w => (fst w, snd w ++ [Crashed]).

(** ** Views of the frame, used to state what [advanceState] computes *)

(** Lines 72-87 on the game object: timers, gravity with the cap on the fall
    speed, position, spawn. *)
Definition integrate (rnd dt : Q) (s : GameState) : GameState :=
  let s := set_spawnTimer (spawnTimer s + dt) s in
  let s := set_wingTimer (wingTimer s + dt) s in
  let s := set_birdVelocity (birdVelocity s + GRAVITY * dt) s in
  let s := if Qgtb (birdVelocity s) MAX_DROP_SPEED
           then set_birdVelocity MAX_DROP_SPEED s else s in
  let s := set_birdY (birdY s + birdVelocity s * dt) s in
  if Qgeb (spawnTimer s) PIPE_INTERVAL
  then
    let s := set_spawnTimer (spawnTimer s - PIPE_INTERVAL) s in
    set_pipes (pipes s ++ [ {| x := CANVAS_WIDTH + PIPE_WIDTH;
                               gapCenter := randomGapCenter rnd;
                               passed := false |} ]) s
  else s.

(** What one visit of the loop does to a pipe (lines 90-95). *)
Definition movePipe (dt : Q) (pipe : Pipe) : Pipe :=
  let pipe1 := set_x (x pipe - PIPE_SPEED * dt) pipe in
  if crossesBird pipe1 then set_passed true pipe1 else pipe1.

(** The pipes as the loop leaves them, and whether it left through the
    collision branch: the pipes after the colliding one are not visited. *)
Fixpoint scanPipes (dt : Q) (state : GameState) (todo : list Pipe)
  : list Pipe * bool :=
  match todo with
  | [] => ([], false)
  | pipe :: rest =>
      let pipe2 := movePipe dt pipe in
      if hitsPipe state pipe2 then (pipe2 :: rest, true)
      else let r := scanPipes dt state rest in (pipe2 :: fst r, snd r)
  end.

(** The number of positions at which the flag [passed] is [false] in the
    first list and [true] in the second. *)
Fixpoint flips (before after : list Pipe) : nat :=
  match before, after with
  | p :: before, p' :: after =>
      (if negb (passed p) && passed p' then 1 else 0)%nat + flips before after
  | _, _ => 0%nat
  end.

(** The filter of line 113. *)
Definition keptPipe (pipe : Pipe) : bool :=
  Qgtb (x pipe + PIPE_WIDTH) (- PIPE_WIDTH).

(** Lines 113-130: the filter and the two boundary checks. *)
Definition finishFrameWith {X : Type} (onCrash : Callback X) (w : Store X)
  : Store X :=
  let w := upd (fun s => set_pipes (filter keptPipe (pipes s)) s) w in
  let groundY := CANVAS_HEIGHT - GROUND_HEIGHT in
  if Qleb (birdY (fst w) - BIRD_RADIUS) 0 then
    onCrash (upd (set_birdVelocity 0) (upd (set_birdY BIRD_RADIUS) w))
  else if Qgeb (birdY (fst w) + BIRD_RADIUS) groundY then
    onCrash (upd (set_birdVelocity 0) (upd (set_birdY (groundY - BIRD_RADIUS)) w))
  else w.

(** The same with the callback of the component. *)
Definition finishFrame (w : App) : App := finishFrameWith endGame w.

(** Whether a frame of a run calls the crash callback: a pipe is hit, or the
    ceiling or the ground is reached. *)
Definition frameCrashes (rnd dt : Q) (s : GameState) : bool :=
  let s1 := integrate rnd dt s in
  snd (scanPipes dt s1 (pipes s1)) ||
  Qleb (birdY s1 - BIRD_RADIUS) 0 ||
  Qgeb (birdY s1 + BIRD_RADIUS) (CANVAS_HEIGHT - GROUND_HEIGHT).

(** One frame in the life of a pipe object: visited by the loop, or left
    alone (the frame was idle, or the loop returned before reaching it). *)
Definition evolves (dt : Q) (p p' : Pipe) : Prop :=
  p' = p \/ p' = movePipe dt p.

(** The successive values of one pipe object over consecutive frames. *)
Inductive lifetime : list Pipe -> Prop :=
| lifetime_one (p : Pipe) : lifetime [p]
| lifetime_step (dt : Q) (p p' : Pipe) (l : list Pipe) :
    evolves dt p p' -> lifetime (p' :: l) -> lifetime (p :: p' :: l).

(** An input is a reset when it is [startGame], directly or through
    [handleFlap] outside a run. *)
Definition resets (a : Action) (w : App) : bool :=
  match a with
  | Advance _ _ => false
  | Flap => negb (Status_eqb (status (snd w)) Running)
  | Reset _ => true
  end.

Fixpoint noReset (l : list Action) (w : App) : bool :=
  match l with
  | [] => true
  | a :: l => negb (resets a w) && noReset l (perform a w)
  end.

Definition nonNegativeStep (a : Action) : Prop :=
  match a with
  | Advance _ dt => 0 <= dt
  | _ => True
  end.

(** The pipes a frame works on: during a run, those of the state and the
    one spawned in this frame, if any. *)
Definition livePipes (rnd dt : Q) (s : GameState) : list Pipe :=
  if running s then pipes (integrate rnd dt s) else pipes s.

(** The bound on the speed, as two inequalities. *)
Definition speedBounded (w : App) : Prop :=
  - MAX_DROP_SPEED <= birdVelocity (fst w) /\
  birdVelocity (fst w) <= MAX_DROP_SPEED.

(** ** Sample data *)

Definition started : App := startGame false mounted.

Definition samplePipe : Pipe := {| x := 100; gapCenter := 300; passed := false |}.
Definition crossingPipe : Pipe := {| x := 20; gapCenter := 300; passed := false |}.
Definition trailingPipe : Pipe := {| x := -100; gapCenter := 300; passed := true |}.

(** A pipe at the bird with its gap above the bird, a pipe whose cap reaches
    the bird, and the pipe as it is pushed by a spawn. *)
Definition blockingPipe : Pipe := {| x := 100; gapCenter := 150; passed := false |}.
Definition capPipe : Pipe := {| x := 135; gapCenter := 400; passed := false |}.
Definition spawnedPipe (rnd : Q) : Pipe :=
  {| x := CANVAS_WIDTH + PIPE_WIDTH;
     gapCenter := randomGapCenter rnd;
     passed := false |}.

(** The end of a run: the first frame of 1.45 s drops the bird to the
    ground. *)
Definition crashed : App := advance 0.5 1.45 started.

(** A short session: start with a flap, two frames, a flap, a frame. *)
Definition sampleSession : list Action :=
  [Reset true; Advance 0.5 0.016; Advance 0.5 0.05; Flap; Advance 0.25 0.05].

(** A run in progress with one pipe about to be removed. *)
Definition withLeavingPipe : App :=
  upd (set_pipes [set_x (-150) trailingPipe]) started.

(** A run in progress with one pipe whose trailing edge is left of the
    screen edge. *)
Definition withTrailingPipe : App :=
  upd (set_pipes [trailingPipe]) started.

(** ** The rest of the component *)

(** The effect that reads the stored best score at mount (lines 263-276).
    [toNumber] stands for [Number(stored)], with [None] for [NaN] (an
    infinite result is outside the rational model);
    [stored] is what [localStorage.getItem] returns, [None] for [null]. *)
Definition loadBest (toNumber : String.string -> option Q)
           (stored : option String.string) (w : App) : App :=
  match stored with
  | None => w
  | Some text =>
      if String.eqb text String.EmptyString then w
      else
        match toNumber text with
        | None => w
        | Some parsed =>
            if Qgtb parsed 0
            then (fst w, mkHooks (status (snd w)) (score (snd w)) parsed
                                 (storedBest (snd w)))
            else w
        end
  end.

(** The key names the handlers test. *)
Open Scope string_scope.
Definition Space : String.string := "Space".
Definition ArrowUp : String.string := "ArrowUp".
Definition KeyR : String.string := "KeyR".
Definition Enter : String.string := "Enter".
Close Scope string_scope.

(** The [keydown] listener on the window (lines 405-418); [code] is
    [event.code]. *)
Definition onKeyDown (code : String.string) (w : App) : App :=
  if String.eqb code Space || String.eqb code ArrowUp then handleFlap w
  else if String.eqb code KeyR then startGame false w
  else w.

(** The pointer handlers of the game shell (lines 420-434). *)
Definition onMouseDown (w : App) : App := handleFlap w.
Definition onTouchStart (w : App) : App := handleFlap w.

(** The [keydown] handler of the game shell (lines 436-444); [key] is
    [event.key]. *)
Definition onKeyDownContainer (key : String.string) (w : App) : App :=
  if String.eqb key Enter then handleFlap w else w.

(** What reaches the component: animation frames and user input. *)
Inductive Input : Type :=
| Tick (rnd time : Q)
| KeyDown (code : String.string)
| ContainerKeyDown (key : String.string)
| MouseDown
| TouchStart.

Definition handle (i : Input) (w : App) : App :=
  match i with
  | Tick rnd time => step rnd time w
  | KeyDown code => onKeyDown code w
  | ContainerKeyDown key => onKeyDownContainer key w
  | MouseDown => onMouseDown w
  | TouchStart => onTouchStart w
  end.

Definition run (l : list Input) (w : App) : App :=
  fold_left (fun w i => handle i w) l w.

(** The time step [step] passes to [advanceState] (lines 345-349). *)
Definition stepDelta (time : Q) (s : GameState) : Q :=
  let last := if Qeq_bool (lastTime s) 0 then time else lastTime s in
  Qmin ((time - last) / 1000) 0.05.

(** The time stamps of the frames do not go back, from [t] on. *)
Fixpoint ascending (t : Q) (l : list Input) : Prop :=
  match l with
  | [] => True
  | Tick _ time :: l => t <= time /\ ascending time l
  | _ :: l => ascending t l
  end.

(** [overlayVisible] (line 446). *)
Definition overlayVisible (h : Hooks) : bool :=
  negb (Status_eqb (status h) Running).

(** ** The status a handler sees

    [setStatus] takes effect at the next render.  Between the call and that
    render, [handleFlap] and the overlay still use the status of the last
    render: [seen] below.  The game object and the refs are written at
    once. *)

(** [handleFlap] (lines 395-403) as created by a render with status
    [seen]. *)
Definition handleFlapSeen (seen : Status) (w : App) : App :=
  if negb (Status_eqb seen Running)
  then startGame true w
  else flap w.

(** The handlers that call it (lines 405-444). *)
Definition onKeyDownSeen (seen : Status) (code : String.string) (w : App)
  : App :=
  if String.eqb code Space || String.eqb code ArrowUp
  then handleFlapSeen seen w
  else if String.eqb code KeyR then startGame false w
  else w.

Definition onKeyDownContainerSeen (seen : Status) (key : String.string)
           (w : App) : App :=
  if String.eqb key Enter then handleFlapSeen seen w else w.

Definition handleSeen (seen : Status) (i : Input) (w : App) : App :=
  match i with
  | Tick rnd time => step rnd time w
  | KeyDown code => onKeyDownSeen seen code w
  | ContainerKeyDown key => onKeyDownContainerSeen seen key w
  | MouseDown => handleFlapSeen seen w
  | TouchStart => handleFlapSeen seen w
  end.

(** The component with the status of its last render. *)
Definition Rendered : Type := (App * Status)%type.

(** What happens to the component: an input arrives, or React renders. *)
Inductive Happening : Type :=
| Arrives (i : Input)
| Commit.

Definition react (e : Happening) (v : Rendered) : Rendered :=
  match e with
  | Arrives i => (handleSeen (snd v) i (fst v), snd v)
  | Commit => (fst v, status (snd (fst v)))
  end.

Definition session (l : list Happening) (v : Rendered) : Rendered :=
  fold_left (fun v e => react e v) l v.

(** The component after its first render and the effect that loads the best
    score. *)
Definition firstRender (toNumber : String.string -> option Q)
           (stored : option String.string) : Rendered :=
  (loadBest toNumber stored mounted, Idle).

(** [overlayVisible] (line 446) in the render on screen. *)
Definition overlayShown (v : Rendered) : bool :=
  negb (Status_eqb (snd v) Running).

(** ** The drawing of the pipes and of the bird's tilt *)

Record Rect : Type := mkRect { left : Q; top : Q; width : Q; height : Q }.

(** The rectangles [drawScene] fills and strokes for a pipe (lines 178-192):
    upper body, upper cap, lower body, lower cap. *)
Definition upperBody (pipe : Pipe) : Rect :=
  mkRect (x pipe) (-6) PIPE_WIDTH (gapTop pipe + 6).
Definition upperCap (pipe : Pipe) : Rect :=
  mkRect (x pipe - 6) (gapTop pipe - 26) (PIPE_WIDTH + 12) 26.
Definition lowerBody (pipe : Pipe) : Rect :=
  let bottomHeight := CANVAS_HEIGHT - GROUND_HEIGHT - gapBottom pipe in
  mkRect (x pipe) (gapBottom pipe) PIPE_WIDTH (bottomHeight + 6).
Definition lowerCap (pipe : Pipe) : Rect :=
  mkRect (x pipe - 6) (gapBottom pipe) (PIPE_WIDTH + 12) 26.

Definition pipeRects (pipe : Pipe) : list Rect :=
  [upperBody pipe; upperCap pipe; lowerBody pipe; lowerCap pipe].

(** The width of the stroke around each rectangle (line 176); a stroke covers
    half of it on each side of the outline. *)
Definition lineWidth : Q := 6.

(** The tilt of the bird (lines 202-207). *)
Definition birdAngle (st : Status) (state : GameState) : Q :=
  match st with
  | Running => Qmax (-0.5) (Qmin (birdVelocity state / 600) 0.7)
  | Over => 0.85
  | Idle => -0.2
  end.

(** ** Notions used in the statements about the whole component *)

(** The square around the bird that the collision test uses meets a
    rectangle (they share a point of positive area). *)
Definition birdBoxMeets (state : GameState) (r : Rect) : Prop :=
  BIRD_X - BIRD_RADIUS < left r + width r /\
  left r < BIRD_X + BIRD_RADIUS /\
  birdY state - BIRD_RADIUS < top r + height r /\
  top r < birdY state + BIRD_RADIUS.

(** A painted rectangle, stroke included, lies outside the canvas on the
    left, or on the right. *)
Definition leftOfCanvas (r : Rect) : Prop :=
  left r + width r + lineWidth / 2 <= 0.
Definition rightOfCanvas (r : Rect) : Prop :=
  CANVAS_WIDTH <= left r - lineWidth / 2.

(** The pipes are in order from left to right. *)
Definition leftToRight (l : list Pipe) : Prop :=
  StronglySorted (fun p q => x p <= x q) l.

(** The flag of a pipe says that the pipe is behind the bird. *)
Definition flagMatches (p : Pipe) : Prop :=
  passed p = true <-> x p + PIPE_WIDTH < BIRD_X - BIRD_RADIUS.

(** What holds of the component whatever the inputs. *)
Definition consistent (w : App) : Prop :=
  (status (snd w) = Running <-> running (fst w) = true) /\
  (running (fst w) = true ->
   BIRD_RADIUS < birdY (fst w) /\
   birdY (fst w) < CANVAS_HEIGHT - GROUND_HEIGHT - BIRD_RADIUS) /\
  (0 <= score (snd w))%Z /\
  inject_Z (score (snd w)) <= bestScore (snd w) /\
  (forall z, storedBest (snd w) = Some z -> bestScore (snd w) = inject_Z z).

(** What holds when the frames come with time stamps that do not go back. *)
Definition orderly (w : App) : Prop :=
  speedBounded w /\
  leftToRight (pipes (fst w)) /\
  Forall (fun p => x p <= CANVAS_WIDTH + PIPE_WIDTH) (pipes (fst w)) /\
  Forall flagMatches (pipes (fst w)) /\
  0 <= spawnTimer (fst w) /\ spawnTimer (fst w) < PIPE_INTERVAL.

(** The hooks after [endGame] has ended a run. *)
Definition gameOver (h : Hooks) : Hooks :=
  mkHooks Over (score h) (bestScore h) (storedBest h).

(** [n] times the amount [e]. *)
Definition times (n : nat) (e : Q) : Q := inject_Z (Z.of_nat n) * e.

(** A frame of the run with a step of at least [d]. *)
Definition frameOfAtLeast (d : Q) (a : Action) : Prop :=
  match a with
  | Advance _ dt => d <= dt
  | _ => False
  end.

(** ** Sample sessions *)

(** Inputs of a session: a click, frames 16 ms apart, a key, a frame. *)
Definition sampleInputs : list Input :=
  [MouseDown; Tick 0.5 1000; Tick 0.5 1016; Tick 0.25 1033; KeyDown Space;
   Tick 0.5 1050].

(** [n] frames 50 ms apart, from the time stamp [t] on. *)
Fixpoint ticks (rnd t : Q) (n : nat) : list Input :=
  match n with
  | O => []
  | S n => Tick rnd t :: ticks rnd (t + 50) n
  end.

(** A session that scores: a click starts the run, six more clicks keep the
    bird in the air, and the first pipe goes behind the bird in the last
    frame. *)
Definition scoringSession : list Input :=
  MouseDown :: ticks 0.5 1000 12 ++
  MouseDown :: ticks 0.5 1600 13 ++
  MouseDown :: ticks 0.5 2250 14 ++
  MouseDown :: ticks 0.5 2950 12 ++
  MouseDown :: ticks 0.5 3550 13 ++
  MouseDown :: ticks 0.5 4200 13 ++
  MouseDown :: ticks 0.5 4850 5.

(** 1067 frames of a sixtieth of a second, without a flap. *)
Definition idleFrames : list Action := repeat (Advance 0.5 (1 # 60)) 1067.

(** A click starts a run, React renders, and forty frames without a flap
    drop the bird to the ground; no render has happened since. *)
Definition crashUnrendered : list Happening :=
  Arrives MouseDown :: Commit :: map Arrives (ticks 0.5 1000 40).

(** A stored best score that does not parse, and one that does. *)
Definition noNumber : String.string -> option Q := fun _ => None.
Definition alwaysSeven : String.string -> option Q := fun _ => Some 7.

(** ** Proof steps used throughout *)

(** The constants, as the numbers they are. *)
Ltac unfold_consts :=
  unfold BIRD_X, CANVAS_WIDTH, CANVAS_HEIGHT, GROUND_HEIGHT, BIRD_RADIUS,
    GRAVITY, FLAP_STRENGTH, MAX_DROP_SPEED, PIPE_WIDTH, PIPE_GAP, PIPE_SPEED,
    PIPE_INTERVAL in *;
  unfold Qdiv in *; change (/ 2) with (1 # 2) in *.

(** Reading a field after assignments. *)
Ltac simpl_state :=
  cbn [fst snd upd birdY birdVelocity pipes spawnTimer lastTime running
       wingTimer set_birdY set_birdVelocity set_pipes set_spawnTimer
       set_lastTime set_running set_wingTimer x gapCenter passed set_x
       set_passed status score bestScore storedBest] in *.

(** * Properties *)

(** ** Boolean comparisons and the order of [Q] *)

Lemma Qltb_true (a b : Q) : Qltb a b = true <-> a < b.
Proof.
  unfold Qltb. rewrite negb_true_iff, <- not_true_iff_false, Qle_bool_iff.
  split; [apply Qnot_le_lt | apply Qlt_not_le].
Qed.

Lemma Qltb_false (a b : Q) : Qltb a b = false <-> b <= a.
Proof.
  unfold Qltb. rewrite negb_false_iff. apply Qle_bool_iff.
Qed.

Lemma Qgtb_true (a b : Q) : Qgtb a b = true <-> b < a.
Proof. apply Qltb_true. Qed.

Lemma Qgtb_false (a b : Q) : Qgtb a b = false <-> a <= b.
Proof. apply Qltb_false. Qed.

Lemma Qleb_true (a b : Q) : Qleb a b = true <-> a <= b.
Proof. apply Qle_bool_iff. Qed.

Lemma Qleb_false (a b : Q) : Qleb a b = false <-> b < a.
Proof.
  unfold Qleb. rewrite <- not_true_iff_false, Qle_bool_iff.
  split; [apply Qnot_le_lt | apply Qlt_not_le].
Qed.

Lemma Qgeb_true (a b : Q) : Qgeb a b = true <-> b <= a.
Proof. apply Qleb_true. Qed.

Lemma Qgeb_false (a b : Q) : Qgeb a b = false <-> a < b.
Proof. apply Qleb_false. Qed.

(** ** Spawning: the gap stays clear of the ceiling and of the ground *)

Lemma randomGapCenter_affine (rnd : Q) :
  randomGapCenter rnd == 117.5 + rnd * 315.
Proof. unfold randomGapCenter. unfold_consts. ring. Qed.

(** C8: for every draw [rnd] in [0, 1), the gap of a pipe whose centre is
    [randomGapCenter rnd] lies strictly below the ceiling (its top edge is
    positive) and strictly above the ground band (its bottom edge is less than
    [CANVAS_HEIGHT - GROUND_HEIGHT]). *)
Theorem randomGapCenter_clear (rnd : Q) :
  0 <= rnd -> rnd < 1 ->
  0 < randomGapCenter rnd - PIPE_GAP / 2 /\
  randomGapCenter rnd + PIPE_GAP / 2 < CANVAS_HEIGHT - GROUND_HEIGHT.
Proof.
  intros Hlo Hhi. rewrite randomGapCenter_affine. unfold_consts.
  split; lra.
Qed.

Lemma randomGapCenter_clear_witness :
  0 < randomGapCenter 0.5 - PIPE_GAP / 2 /\
  randomGapCenter 0.5 + PIPE_GAP / 2 < CANVAS_HEIGHT - GROUND_HEIGHT.
Proof.
  apply (randomGapCenter_clear 0.5); [discriminate | reflexivity].
Defined.

(** ** The collision test *)

Lemma hitsPipe_false_iff (state : GameState) (pipe : Pipe) :
  hitsPipe state pipe = false <->
  overlapsHorizontally pipe = false \/
  (gapTop pipe <= birdY state - BIRD_RADIUS /\
   birdY state + BIRD_RADIUS <= gapBottom pipe).
Proof.
  unfold hitsPipe.
  rewrite andb_false_iff, orb_false_iff, Qltb_false, Qgtb_false.
  reflexivity.
Qed.

(** C9: a bird whose centre is strictly between [gapTop + BIRD_RADIUS] and
    [gapBottom - BIRD_RADIUS] of a pipe does not hit that pipe, wherever the
    pipe is horizontally (in particular when it overlaps the bird). *)
Theorem hitsPipe_inside_gap (state : GameState) (pipe : Pipe) :
  gapCenter pipe - PIPE_GAP / 2 + BIRD_RADIUS < birdY state ->
  birdY state < gapCenter pipe + PIPE_GAP / 2 - BIRD_RADIUS ->
  hitsPipe state pipe = false.
Proof.
  intros Htop Hbottom. apply hitsPipe_false_iff. right.
  unfold gapTop, gapBottom. unfold_consts. split; lra.
Qed.

Lemma hitsPipe_inside_gap_witness :
  overlapsHorizontally samplePipe = true /\
  hitsPipe (fst started) samplePipe = false.
Proof.
  split; [reflexivity |].
  apply (hitsPipe_inside_gap (fst started) samplePipe); reflexivity.
Defined.

(** ** Scoring excludes collision *)

Lemma crossesBird_true_iff (pipe : Pipe) :
  crossesBird pipe = true <->
  passed pipe = false /\ x pipe + PIPE_WIDTH < BIRD_X - BIRD_RADIUS.
Proof.
  unfold crossesBird. rewrite andb_true_iff, negb_true_iff, Qltb_true.
  reflexivity.
Qed.

Lemma behind_bird_no_overlap (pipe : Pipe) :
  x pipe + PIPE_WIDTH <= BIRD_X - BIRD_RADIUS ->
  overlapsHorizontally pipe = false.
Proof.
  intros H. unfold overlapsHorizontally.
  apply andb_false_iff. right. apply Qltb_false. exact H.
Qed.

(** C10: in the loop body, a pipe that satisfies the scoring test after its
    move (so that [onScore] is called for it) fails the horizontal overlap
    test, hence the collision test; the loop calls [onScore] and goes on to
    the next pipe, without reaching [onCrash] for this one. *)
Theorem scoring_pipe_never_crashes
        {X : Type} (dt : Q) (onScore onCrash : Callback X)
        (done rest : list Pipe) (pipe : Pipe) (w : Store X) :
  let pipe1 := set_x (x pipe - PIPE_SPEED * dt) pipe in
  let pipe2 := set_passed true pipe1 in
  crossesBird pipe1 = true ->
  overlapsHorizontally pipe2 = false /\
  (forall state, hitsPipe state pipe2 = false) /\
  pipeLoop dt onScore onCrash done (pipe :: rest) w =
  pipeLoop dt onScore onCrash (done ++ [pipe2]) rest
           (onScore (upd (set_pipes (done ++ pipe2 :: rest))
                         (upd (set_pipes (done ++ pipe1 :: rest)) w))).
Proof.
  intros pipe1 pipe2 Hscore.
  assert (Hover : overlapsHorizontally pipe2 = false).
  { apply crossesBird_true_iff in Hscore. destruct Hscore as [_ Hlt].
    apply behind_bird_no_overlap. simpl in *. apply Qlt_le_weak. exact Hlt. }
  assert (Hhit : forall state, hitsPipe state pipe2 = false).
  { intros state. unfold hitsPipe. rewrite Hover. reflexivity. }
  split; [exact Hover | split; [exact Hhit |]].
  cbn [pipeLoop]. fold pipe1. rewrite Hscore. fold pipe2.
  rewrite Hhit. reflexivity.
Qed.

Lemma scoring_pipe_never_crashes_witness :
  overlapsHorizontally
    (set_passed true (set_x (x crossingPipe - PIPE_SPEED * 0.01) crossingPipe))
  = false.
Proof.
  apply (scoring_pipe_never_crashes 0.01 logScore logCrash [] [] crossingPipe
                                    (fst started, [])).
  reflexivity.
Defined.

(** ** The loop in closed form *)

Lemma hitsPipe_ext (s1 s2 : GameState) (pipe : Pipe) :
  birdY s1 = birdY s2 -> hitsPipe s1 pipe = hitsPipe s2 pipe.
Proof. intros H. unfold hitsPipe. rewrite H. reflexivity. Qed.

Lemma scanPipes_ext (dt : Q) (s1 s2 : GameState) (todo : list Pipe) :
  birdY s1 = birdY s2 -> scanPipes dt s1 todo = scanPipes dt s2 todo.
Proof.
  intros H. induction todo as [|pipe rest IH]; [reflexivity |].
  cbn [scanPipes]. rewrite (hitsPipe_ext s1 s2 _ H), IH. reflexivity.
Qed.

Lemma flips_same (l : list Pipe) : flips l l = 0%nat.
Proof.
  induction l as [|p l IH]; [reflexivity |].
  cbn [flips]. rewrite IH. destruct (passed p); reflexivity.
Qed.

Lemma movePipe_flip (dt : Q) (pipe : Pipe) :
  negb (passed pipe) && passed (movePipe dt pipe) =
  crossesBird (set_x (x pipe - PIPE_SPEED * dt) pipe).
Proof.
  unfold movePipe.
  destruct (crossesBird (set_x (x pipe - PIPE_SPEED * dt) pipe)) eqn:E.
  - apply crossesBird_true_iff in E. destruct E as [E _].
    cbn in E |- *. rewrite E. reflexivity.
  - cbn. destruct (passed pipe); reflexivity.
Qed.

Lemma set_pipes_same (s : GameState) (l : list Pipe) :
  pipes s = l -> set_pipes l s = s.
Proof. intros <-. destruct s; reflexivity. Qed.

(** The loop in closed form, for a score callback that leaves the game
    object alone ([f] is what it does to its closure): the pipes are those of
    [scanPipes], the score callback has run once per flipped flag, and the
    crash callback runs last, if at all. *)
Lemma pipeLoop_closed
      {X : Type} (dt : Q) (f : X -> X) (onCrash : Callback X)
      (todo done : list Pipe) (w : Store X) :
  pipes (fst w) = done ++ todo ->
  pipeLoop dt (fun w => (fst w, f (snd w))) onCrash done todo w =
  let r := scanPipes dt (fst w) todo in
  let w1 := (set_pipes (done ++ fst r) (fst w),
             Nat.iter (flips todo (fst r)) f (snd w)) in
  (snd r, if snd r then onCrash w1 else w1).
Proof.
  revert done w. induction todo as [|pipe rest IH]; intros done w Hp.
  - cbn. rewrite (set_pipes_same _ _ Hp). destruct w; reflexivity.
  - destruct w as [s h]. cbn [fst snd] in *.
    cbn [pipeLoop scanPipes]. cbn zeta. fold (movePipe dt pipe).
    set (pipe1 := set_x (x pipe - PIPE_SPEED * dt) pipe).
    set (k := if crossesBird pipe1 then 1%nat else 0%nat).
    match goal with
    | |- context [onCrash ?W] =>
        assert (Hw2 : W = (set_pipes (done ++ movePipe dt pipe :: rest) s,
                           Nat.iter k f h))
    end.
    { unfold movePipe, k. fold pipe1. destruct (crossesBird pipe1); reflexivity. }
    rewrite Hw2. cbn [fst].
    rewrite (hitsPipe_ext _ s) by reflexivity.
    assert (Hk : forall l,
      flips (pipe :: rest) (movePipe dt pipe :: l) = (flips rest l + k)%nat).
    { intros l. cbn [flips]. rewrite movePipe_flip. fold pipe1. unfold k.
      apply Nat.add_comm. }
    destruct (hitsPipe s (movePipe dt pipe)).
    + cbn [fst snd]. rewrite Hk, flips_same. reflexivity.
    + rewrite IH by (cbn; rewrite <- app_assoc; reflexivity).
      cbn [fst snd]. rewrite Hk, Nat.iter_add, <- app_assoc. cbn [app].
      rewrite (scanPipes_ext dt _ s) by reflexivity.
      destruct (snd (scanPipes dt s rest)); reflexivity.
Qed.

(** ** The frame in closed form *)

Lemma advance_idle (rnd dt : Q) (w : App) :
  running (fst w) = false ->
  advance rnd dt w = upd (fun s => set_wingTimer (wingTimer s + dt) s) w.
Proof.
  intros H. unfold advance, advanceState. rewrite H. reflexivity.
Qed.

Lemma advanceState_running
      {X : Type} (rnd dt : Q) (f : X -> X) (onCrash : Callback X)
      (w : Store X) :
  running (fst w) = true ->
  advanceState rnd w dt (fun w => (fst w, f (snd w))) onCrash =
  let s1 := integrate rnd dt (fst w) in
  let r := scanPipes dt s1 (pipes s1) in
  let w1 := (set_pipes (fst r) s1,
             Nat.iter (flips (pipes s1) (fst r)) f (snd w)) in
  if snd r then onCrash w1 else finishFrameWith onCrash w1.
Proof.
  intros H. unfold advanceState. rewrite H. cbn [negb].
  destruct w as [s h]. cbn [fst snd] in *.
  match goal with
  | |- context [pipeLoop _ _ _ _ (pipes (fst ?W)) _] =>
      assert (HW : W = (integrate rnd dt s, h))
  end.
  { unfold integrate. destruct s as [y v ps st lt r wt]. simpl_state.
    destruct (Qgtb (v + GRAVITY * dt) MAX_DROP_SPEED); simpl_state;
      destruct (Qgeb (st + dt) PIPE_INTERVAL); reflexivity. }
  rewrite HW. clear HW. cbn [fst snd].
  rewrite pipeLoop_closed by reflexivity.
  cbn [fst snd app].
  destruct (snd (scanPipes dt (integrate rnd dt s) (pipes (integrate rnd dt s))));
    reflexivity.
Qed.

Lemma advance_running (rnd dt : Q) (w : App) :
  running (fst w) = true ->
  advance rnd dt w =
  let s1 := integrate rnd dt (fst w) in
  let r := scanPipes dt s1 (pipes s1) in
  let w1 := (set_pipes (fst r) s1,
             Nat.iter (flips (pipes s1) (fst r)) incrementHooks (snd w)) in
  if snd r then endGame w1 else finishFrame w1.
Proof.
  intros H. apply (advanceState_running rnd dt incrementHooks endGame w H).
Qed.

(** The calls of a frame of a run, in order: one [Scored] per flipped flag,
    then at most one [Crashed]. *)
Lemma advanceState_log (rnd dt : Q) (s : GameState) (log : list Event) :
  running s = true ->
  snd (advanceState rnd (s, log) dt logScore logCrash) =
  log ++
  repeat Scored (flips (pipes (integrate rnd dt s))
                       (fst (scanPipes dt (integrate rnd dt s)
                                       (pipes (integrate rnd dt s))))) ++
  (if frameCrashes rnd dt s then [Crashed] else []).
Proof.
  intros H.
  assert (Hiter : forall n (l : list Event),
             Nat.iter n (fun l => l ++ [Scored]) l = l ++ repeat Scored n).
  { induction n as [|n IH]; intros l; [symmetry; apply app_nil_r |].
    rewrite Nat.iter_succ_r, IH, <- app_assoc. reflexivity. }
  change logScore with (fun w : Store (list Event) => (fst w, snd w ++ [Scored])).
  rewrite (advanceState_running rnd dt (fun l => l ++ [Scored]) logCrash (s, log) H).
  cbn zeta. cbn [fst snd]. rewrite Hiter. unfold frameCrashes. cbn zeta.
  set (s1 := integrate rnd dt s).
  destruct (snd (scanPipes dt s1 (pipes s1))); cbn [orb].
  - cbn. rewrite <- app_assoc. reflexivity.
  - unfold finishFrameWith. simpl_state.
    destruct (Qleb (birdY s1 - BIRD_RADIUS) 0); cbn [orb].
    + cbn. rewrite <- app_assoc. reflexivity.
    + destruct (Qgeb (birdY s1 + BIRD_RADIUS) (CANVAS_HEIGHT - GROUND_HEIGHT)).
      * cbn. rewrite <- app_assoc. reflexivity.
      * cbn [snd]. rewrite app_nil_r. reflexivity.
Qed.

(** ** Outside a run *)

(** C4: while [running] is false, a call of [advanceState] with [dt >= 0]
    leaves the bird's position, the bird's velocity and the pipes as they
    were and calls neither callback: whatever the callbacks are, the state of
    their closure is untouched, and recording callbacks record nothing. *)
Theorem advanceState_idle
        {X : Type} (rnd dt : Q) (w : Store X) (onScore onCrash : Callback X) :
  0 <= dt ->
  running (fst w) = false ->
  birdY (fst (advanceState rnd w dt onScore onCrash)) = birdY (fst w) /\
  birdVelocity (fst (advanceState rnd w dt onScore onCrash)) = birdVelocity (fst w) /\
  pipes (fst (advanceState rnd w dt onScore onCrash)) = pipes (fst w) /\
  snd (advanceState rnd w dt onScore onCrash) = snd w /\
  (forall log : list Event,
      snd (advanceState rnd (fst w, log) dt logScore logCrash) = log).
Proof.
  intros _ Hidle. unfold advanceState. cbn [fst]. rewrite Hidle. cbn [negb].
  repeat split.
Qed.

Lemma advanceState_idle_witness :
  pipes (fst (advanceState 0.5 mounted 1 incrementScore endGame)) = [] /\
  snd (advanceState 0.5 mounted 1 incrementScore endGame) = snd mounted.
Proof.
  assert (H := advanceState_idle 0.5 1 mounted incrementScore endGame).
  destruct H as (_ & _ & Hp & Hs & _); [discriminate | reflexivity |].
  split; [exact Hp | exact Hs].
Defined.

(** ** What the callbacks and the end of the frame leave alone *)

Lemma endGame_game (w : App) :
  birdY (fst (endGame w)) = birdY (fst w) /\
  birdVelocity (fst (endGame w)) = birdVelocity (fst w) /\
  pipes (fst (endGame w)) = pipes (fst w) /\
  spawnTimer (fst (endGame w)) = spawnTimer (fst w) /\
  wingTimer (fst (endGame w)) = wingTimer (fst w).
Proof.
  unfold endGame. destruct (running (fst w)); repeat split.
Qed.

Lemma endGame_running (w : App) : running (fst (endGame w)) = false.
Proof.
  unfold endGame. destruct (running (fst w)) eqn:E; [reflexivity | exact E].
Qed.




Lemma finishFrame_velocity (w : App) :
  birdVelocity (fst (finishFrame w)) = 0 \/
  birdVelocity (fst (finishFrame w)) = birdVelocity (fst w).
Proof.
  unfold finishFrame, finishFrameWith.
  repeat match goal with
         | |- context [if ?c then _ else _] => destruct c
         end;
    try (right; reflexivity);
    left;
    match goal with
    | |- context [endGame ?u] =>
        destruct (endGame_game u) as (_ & H & _); rewrite H
    end; reflexivity.
Qed.

Lemma advance_velocity (rnd dt : Q) (w : App) :
  running (fst w) = true ->
  birdVelocity (fst (advance rnd dt w)) = 0 \/
  birdVelocity (fst (advance rnd dt w)) = birdVelocity (integrate rnd dt (fst w)).
Proof.
  intros H. rewrite (advance_running rnd dt w H). cbn zeta.
  match goal with
  | |- context [if ?c then _ else _] => destruct c
  end.
  - right.
    match goal with
    | |- context [endGame ?u] =>
        destruct (endGame_game u) as (_ & H1 & _); rewrite H1
    end.
    reflexivity.
  - match goal with
    | |- context [finishFrame ?u] =>
        destruct (finishFrame_velocity u) as [H1 | H1]; rewrite H1
    end; [left | right]; reflexivity.
Qed.

(** ** A negative time step *)




(** ** The first spawn *)

(** At the start of a run, the frame [advanceState(state, 1.45, ...)] leaves
    one pipe, and it is not at [CANVAS_WIDTH + PIPE_WIDTH]. *)
Lemma first_spawn_not_at_edge :
  ~ exists p : Pipe,
      pipes (fst (advance 0.5 1.45 started)) = [p] /\
      x p == CANVAS_WIDTH + PIPE_WIDTH.
Proof.
  intros (p & Hp & Hx). vm_compute in Hp. injection Hp as <-.
  vm_compute in Hx. discriminate.
Qed.

(** C1, as the code has it: from the state of a fresh run (bird at mid
    height, velocity 0, no pipes, spawn timer 0, running), one frame with
    [dt = 1.45] leaves exactly one pipe; it was pushed at
    [CANVAS_WIDTH + PIPE_WIDTH] = 498 and moved by the loop of the same frame,
    so it is at 498 - 180 * 1.45 = 237, not yet passed.  The bird reaches the
    ground in that frame, so the crash callback runs; it is only assumed to
    leave the pipes alone. *)
Theorem first_spawn
        {X : Type} (rnd : Q) (c : X) (onScore onCrash : Callback X) :
  (forall w, pipes (fst (onCrash w)) = pipes (fst w)) ->
  pipes (fst (advanceState rnd (set_running true createInitialState, c) 1.45
                           onScore onCrash)) =
  [ {| x := CANVAS_WIDTH + PIPE_WIDTH - PIPE_SPEED * 1.45;
       gapCenter := randomGapCenter rnd;
       passed := false |} ] /\
  CANVAS_WIDTH + PIPE_WIDTH - PIPE_SPEED * 1.45 == 237.
Proof.
  intros Hkeep. split; [| reflexivity].
  match goal with
  | |- pipes (fst ?t) = _ =>
      let t' := eval lazy in t in change t with t'
  end.
  rewrite Hkeep. reflexivity.
Qed.

Lemma first_spawn_witness :
  pipes (fst (advance 0.5 1.45 started)) =
  [ {| x := CANVAS_WIDTH + PIPE_WIDTH - PIPE_SPEED * 1.45;
       gapCenter := randomGapCenter 0.5;
       passed := false |} ].
Proof.
  apply (first_spawn 0.5 (snd started) incrementScore endGame).
  intros w. apply endGame_game.
Defined.

(** ** Removal of the pipes that left the screen *)

Lemma scanPipes_no_crash (dt : Q) (state : GameState) (todo : list Pipe) :
  snd (scanPipes dt state todo) = false ->
  fst (scanPipes dt state todo) = map (movePipe dt) todo.
Proof.
  induction todo as [|pipe rest IH]; [reflexivity |].
  cbn [scanPipes map].
  destruct (hitsPipe state (movePipe dt pipe)); cbn [fst snd];
    [discriminate |].
  intros H. rewrite (IH H). reflexivity.
Qed.

Lemma keptPipe_true (pipe : Pipe) :
  keptPipe pipe = true <-> - PIPE_WIDTH < x pipe + PIPE_WIDTH.
Proof. apply Qgtb_true. Qed.

Lemma finishFrame_still_running (w : App) :
  running (fst (finishFrame w)) = true ->
  finishFrame w = upd (fun s => set_pipes (filter keptPipe (pipes s)) s) w.
Proof.
  unfold finishFrame, finishFrameWith.
  repeat match goal with
         | |- context [if ?c then _ else _] => destruct c
         end; try reflexivity;
    rewrite endGame_running; discriminate.
Qed.

(** A frame that leaves the run going: the loop visited every pipe and the
    frame ended with the filter. *)
Lemma advance_still_running (rnd dt : Q) (w : App) :
  running (fst w) = true ->
  running (fst (advance rnd dt w)) = true ->
  let s1 := integrate rnd dt (fst w) in
  let l := map (movePipe dt) (pipes s1) in
  advance rnd dt w =
  (set_pipes (filter keptPipe l) s1,
   Nat.iter (flips (pipes s1) l) incrementHooks (snd w)).
Proof.
  intros Hrun. rewrite (advance_running rnd dt w Hrun). cbn zeta.
  destruct (snd (scanPipes dt (integrate rnd dt (fst w))
                           (pipes (integrate rnd dt (fst w))))) eqn:Hc.
  - rewrite endGame_running. discriminate.
  - rewrite (scanPipes_no_crash _ _ _ Hc). intros Hstill.
    rewrite (finishFrame_still_running _ Hstill). reflexivity.
Qed.

(** During a run, a frame that moves a pipe to -101.8 keeps it, although its
    trailing edge is left of the screen edge, and the run goes on. *)
Lemma trailing_pipe_kept :
  running (fst withTrailingPipe) = true /\
  running (fst (advance 0.5 0.01 withTrailingPipe)) = true /\
  exists p : Pipe,
    In p (pipes (fst (advance 0.5 0.01 withTrailingPipe))) /\
    x p + PIPE_WIDTH <= 0.
Proof.
  split; [reflexivity |]. split; [reflexivity |].
  exists (movePipe 0.01 trailingPipe). split.
  - left. reflexivity.
  - vm_compute. discriminate.
Qed.

Lemma finishFrame_pipes (w : App) :
  pipes (fst (finishFrame w)) = filter keptPipe (pipes (fst w)).
Proof.
  unfold finishFrame, finishFrameWith.
  repeat match goal with
         | |- context [if ?c then _ else _] => destruct c
         end;
    repeat match goal with
           | |- context [endGame ?u] =>
               let H := fresh in
               destruct (endGame_game u) as (_ & _ & H & _);
               rewrite H; clear H
           end; reflexivity.
Qed.

(** C2, as the code has it: after a frame of a run in which no pipe is hit,
    whether the run goes on or the frame ends on the ceiling or on the ground,
    the pipes are the pipes of the frame (the earlier ones and the one spawned
    in this frame, each moved by the loop) filtered, in their order, by
    [x + PIPE_WIDTH > -PIPE_WIDTH]: a pipe is removed when its trailing edge
    is one pipe width or more left of the screen edge, and kept until then. *)
Theorem advance_filters_pipes (rnd dt : Q) (w : App) :
  running (fst w) = true ->
  snd (scanPipes dt (integrate rnd dt (fst w))
                 (pipes (integrate rnd dt (fst w)))) = false ->
  pipes (fst (advance rnd dt w)) =
    filter keptPipe (map (movePipe dt) (pipes (integrate rnd dt (fst w)))) /\
  Forall (fun p => - PIPE_WIDTH < x p + PIPE_WIDTH)
         (pipes (fst (advance rnd dt w))) /\
  (forall p : Pipe,
      In p (map (movePipe dt) (pipes (integrate rnd dt (fst w)))) ->
      (In p (pipes (fst (advance rnd dt w))) <->
       - PIPE_WIDTH < x p + PIPE_WIDTH)).
Proof.
  intros Hrun Hno.
  assert (E : pipes (fst (advance rnd dt w)) =
              filter keptPipe
                     (map (movePipe dt) (pipes (integrate rnd dt (fst w))))).
  { rewrite (advance_running rnd dt w Hrun). cbn zeta. rewrite Hno.
    rewrite finishFrame_pipes. cbn [fst pipes set_pipes].
    rewrite (scanPipes_no_crash _ _ _ Hno). reflexivity. }
  rewrite E. split; [reflexivity |]. split.
  - apply Forall_forall. intros p Hin. apply filter_In in Hin.
    apply keptPipe_true. apply Hin.
  - intros p Hin. rewrite filter_In, keptPipe_true. tauto.
Qed.

Lemma advance_filters_pipes_witness :
  running (fst (advance 0.5 1.45 withLeavingPipe)) = false /\
  pipes (fst (advance 0.5 1.45 withLeavingPipe)) =
    filter keptPipe
           (map (movePipe 1.45)
                (pipes (integrate 0.5 1.45 (fst withLeavingPipe)))).
Proof.
  split; [reflexivity |].
  pose proof (advance_filters_pipes 0.5 1.45 withLeavingPipe) as H.
  destruct H as [H _]; [reflexivity | reflexivity |].
  exact H.
Defined.

(** ** Termination *)

Lemma endGame_idle (w : App) : running (fst w) = false -> endGame w = w.
Proof. intros H. unfold endGame. rewrite H. reflexivity. Qed.

Lemma incrementHooks_fields (h : Hooks) :
  status (incrementHooks h) = status h /\
  score (incrementHooks h) = (score h + 1)%Z.
Proof.
  unfold incrementHooks. cbv zeta.
  match goal with
  | |- context [if ?c then _ else _] => destruct c
  end; split; reflexivity.
Qed.

Lemma incrementHooks_status (n : nat) (h : Hooks) :
  status (Nat.iter n incrementHooks h) = status h.
Proof.
  induction n as [|n IH]; [reflexivity |].
  rewrite Nat.iter_succ.
  destruct (incrementHooks_fields (Nat.iter n incrementHooks h)) as [-> _].
  exact IH.
Qed.

Lemma incrementHooks_score (n : nat) (h : Hooks) :
  score (Nat.iter n incrementHooks h) = (score h + Z.of_nat n)%Z.
Proof.
  induction n as [|n IH]; [cbn; lia |].
  rewrite Nat.iter_succ.
  destruct (incrementHooks_fields (Nat.iter n incrementHooks h)) as [_ ->].
  rewrite IH. lia.
Qed.

Lemma endGame_status (w : App) :
  status (snd (endGame w)) = Over \/ status (snd (endGame w)) = status (snd w).
Proof.
  unfold endGame. destruct (running (fst w)); [left | right]; reflexivity.
Qed.

Lemma perform_idle (a : Action) (w : App) :
  running (fst w) = false ->
  resets a w = false ->
  running (fst (perform a w)) = false.
Proof.
  intros Hidle Hres. destruct a as [rnd dt | | withFlap]; cbn [perform].
  - rewrite advance_idle by exact Hidle. exact Hidle.
  - cbn [resets] in Hres. unfold handleFlap. rewrite Hres. exact Hidle.
  - discriminate.
Qed.

(** In one frame the crash callback is called at most once, after the
    score callbacks. *)
Lemma advanceState_calls (rnd dt : Q) (s : GameState) (log : list Event) :
  exists (n : nat) (crash : list Event),
    (crash = [] \/ crash = [Crashed]) /\
    snd (advanceState rnd (s, log) dt logScore logCrash) =
    log ++ repeat Scored n ++ crash.
Proof.
  destruct (running s) eqn:Hrun.
  - rewrite (advanceState_log rnd dt s log Hrun).
    eexists. destruct (frameCrashes rnd dt s);
      [exists [Crashed] | exists []]; split; auto.
  - exists 0%nat, []. split; [left; reflexivity |].
    unfold advanceState. cbn [fst]. rewrite Hrun. cbn.
    rewrite app_nil_r. reflexivity.
Qed.

(** After the 1.45 s frame that ends the run on the ground, a further frame
    of 1 s is not a no-op: the wing timer moves on. *)
Lemma terminal_advance_changes_wingTimer :
  running (fst crashed) = false /\
  status (snd crashed) = Over /\
  advance 0.5 1 crashed <> crashed /\
  wingTimer (fst crashed) = 1.45 /\
  wingTimer (fst (advance 0.5 1 crashed)) == 2.45.
Proof.
  repeat split. vm_compute. discriminate.
Qed.

(** C5, as the code has it: [endGame] leaves [running] false; called again,
    in the same frame or later, it changes nothing; a frame calls the crash
    callback at most once, and a frame in which [endGame] fires ends with
    [running] false; from then on [running] stays false over any sequence of
    frames and flaps that contains no reset; and a frame outside a run changes
    the wing timer and nothing else. *)
Theorem termination_is_final :
  (forall w : App, running (fst (endGame w)) = false) /\
  (forall w : App, running (fst w) = false -> endGame w = w) /\
  (forall w : App, endGame (endGame w) = endGame w) /\
  (forall (rnd dt : Q) (s : GameState) (log : list Event),
      exists (n : nat) (crash : list Event),
        (crash = [] \/ crash = [Crashed]) /\
        snd (advanceState rnd (s, log) dt logScore logCrash) =
        log ++ repeat Scored n ++ crash) /\
  (forall (rnd dt : Q) (w : App),
      status (snd w) <> Over ->
      status (snd (advance rnd dt w)) = Over ->
      running (fst (advance rnd dt w)) = false) /\
  (forall (l : list Action) (w : App),
      running (fst w) = false ->
      noReset l w = true ->
      running (fst (performAll l w)) = false) /\
  (forall (rnd dt : Q) (w : App),
      running (fst w) = false ->
      advance rnd dt w = upd (fun s => set_wingTimer (wingTimer s + dt) s) w).
Proof.
  split; [exact endGame_running |].
  split; [exact endGame_idle |].
  split; [intros w; apply endGame_idle, endGame_running |].
  split; [exact advanceState_calls |].
  split; [| split].
  - intros rnd dt w Hnot Hover.
    destruct (running (fst w)) eqn:Hrun.
    + destruct (running (fst (advance rnd dt w))) eqn:Hstill; [| reflexivity].
      rewrite (advance_still_running rnd dt w Hrun Hstill) in Hover.
      cbn [snd] in Hover. rewrite incrementHooks_status in Hover.
      contradiction.
    + rewrite advance_idle by exact Hrun. exact Hrun.
  - induction l as [|a l IH]; intros w Hidle Hno; [exact Hidle |].
    cbn [noReset] in Hno. apply andb_true_iff in Hno. destruct Hno as [Ha Hl].
    apply negb_true_iff in Ha.
    unfold performAll. cbn [fold_left]. apply IH; [| exact Hl].
    apply perform_idle; assumption.
  - intros rnd dt w Hidle. apply advance_idle. exact Hidle.
Qed.

Lemma termination_is_final_witness :
  running (fst (performAll [Advance 0.5 1; Advance 0.25 0.05] crashed)) = false.
Proof.
  apply termination_is_final; reflexivity.
Defined.

(** ** The fall speed *)

Lemma integrate_velocity (rnd dt : Q) (s : GameState) :
  0 <= dt ->
  - MAX_DROP_SPEED <= birdVelocity s ->
  - MAX_DROP_SPEED <= birdVelocity (integrate rnd dt s) /\
  birdVelocity (integrate rnd dt s) <= MAX_DROP_SPEED.
Proof.
  intros Hdt Hlow. unfold integrate. destruct s as [y v ps st lt r wt].
  simpl_state.
  destruct (Qgtb (v + GRAVITY * dt) MAX_DROP_SPEED) eqn:Hcap; simpl_state;
    destruct (Qgeb (st + dt) PIPE_INTERVAL); simpl_state.
  all: try apply Qgtb_false in Hcap.
  all: unfold_consts; split; try lra; try nra.
Qed.

Lemma speedBounded_zero (w : App) :
  birdVelocity (fst w) = 0 -> speedBounded w.
Proof. unfold speedBounded. intros ->. unfold_consts. split; lra. Qed.

Lemma perform_speedBounded (a : Action) (w : App) :
  nonNegativeStep a -> speedBounded w -> speedBounded (perform a w).
Proof.
  intros Hdt Hb. destruct a as [rnd dt | | withFlap]; cbn [perform].
  - cbn [nonNegativeStep] in Hdt.
    destruct (running (fst w)) eqn:Hrun.
    + destruct (advance_velocity rnd dt w Hrun) as [H | H].
      * apply speedBounded_zero. exact H.
      * unfold speedBounded. rewrite H.
        apply integrate_velocity; [exact Hdt | apply Hb].
    + rewrite advance_idle by exact Hrun. exact Hb.
  - unfold handleFlap.
    destruct (negb (Status_eqb (status (snd w)) Running));
      unfold speedBounded; cbn; unfold_consts; split; lra.
  - destruct withFlap; unfold speedBounded; cbn; unfold_consts; split; lra.
Qed.

(** C6: over any sequence of frames with non-negative [dt], flaps and resets,
    a bird velocity that starts within [MAX_DROP_SPEED] in absolute value
    stays within it. *)
Theorem velocity_bounded (l : list Action) (w : App) :
  Forall nonNegativeStep l ->
  Qabs (birdVelocity (fst w)) <= MAX_DROP_SPEED ->
  Qabs (birdVelocity (fst (performAll l w))) <= MAX_DROP_SPEED.
Proof.
  intros Hl Hw. apply Qabs_Qle_condition in Hw.
  apply Qabs_Qle_condition. fold (speedBounded (performAll l w)).
  change (speedBounded w) in Hw.
  revert w Hw. induction Hl as [|a l Ha Hl IH]; intros w Hw; [exact Hw |].
  unfold performAll. cbn [fold_left]. apply IH.
  apply perform_speedBounded; assumption.
Qed.

Lemma velocity_bounded_witness :
  Qabs (birdVelocity (fst (performAll sampleSession mounted))) <= MAX_DROP_SPEED.
Proof.
  apply (velocity_bounded sampleSession mounted).
  - repeat constructor; discriminate.
  - discriminate.
Defined.

(** ** Scoring *)

Lemma integrate_pipes (rnd dt : Q) (s : GameState) :
  pipes (integrate rnd dt s) =
  pipes s ++
  (if Qgeb (spawnTimer s + dt) PIPE_INTERVAL
   then [ {| x := CANVAS_WIDTH + PIPE_WIDTH;
             gapCenter := randomGapCenter rnd;
             passed := false |} ]
   else []).
Proof.
  unfold integrate. destruct s as [y v ps st lt r wt]. simpl_state.
  destruct (Qgtb (v + GRAVITY * dt) MAX_DROP_SPEED); simpl_state;
    destruct (Qgeb (st + dt) PIPE_INTERVAL); simpl_state;
    try reflexivity; symmetry; apply app_nil_r.
Qed.

Lemma Forall2_evolves_same (dt : Q) (l : list Pipe) :
  Forall2 (evolves dt) l l.
Proof.
  induction l as [|p l IH]; constructor; [left; reflexivity | exact IH].
Qed.

Lemma scanPipes_evolves (dt : Q) (state : GameState) (todo : list Pipe) :
  Forall2 (evolves dt) todo (fst (scanPipes dt state todo)).
Proof.
  induction todo as [|pipe rest IH]; [constructor |].
  cbn [scanPipes].
  destruct (hitsPipe state (movePipe dt pipe)); cbn [fst].
  - constructor; [right; reflexivity | apply Forall2_evolves_same].
  - constructor; [right; reflexivity | exact IH].
Qed.

Lemma evolves_passed (dt : Q) (p p' : Pipe) :
  evolves dt p p' -> passed p = true -> passed p' = true.
Proof.
  intros [-> | ->] Hp; [exact Hp |].
  unfold movePipe.
  destruct (crossesBird (set_x (x p - PIPE_SPEED * dt) p));
    [reflexivity | exact Hp].
Qed.

Lemma lifetime_tail (p : Pipe) (l : list Pipe) :
  lifetime (p :: l) -> l = [] \/ lifetime l.
Proof.
  intros H. inversion H; subst; [left; reflexivity | right; assumption].
Qed.

Lemma lifetime_suffix (l1 : list Pipe) (p : Pipe) (l2 : list Pipe) :
  lifetime (l1 ++ p :: l2) -> lifetime (p :: l2).
Proof.
  induction l1 as [|q l1 IH]; intros H; [exact H |].
  cbn [app] in H. apply lifetime_tail in H. destruct H as [H | H].
  - destruct l1; discriminate.
  - apply IH. exact H.
Qed.

Lemma lifetime_passed (p : Pipe) (l : list Pipe) :
  lifetime (p :: l) -> passed p = true ->
  Forall (fun q => passed q = true) l.
Proof.
  revert p. induction l as [|q l IH]; intros p H Hp; [constructor |].
  inversion H as [| dt p0 p1 l0 Hev Hl]; subst.
  assert (Hq : passed q = true) by (eapply evolves_passed; eassumption).
  constructor; [exact Hq | apply (IH q Hl Hq)].
Qed.

Lemma flips_all_passed (p : Pipe) (l : list Pipe) :
  passed p = true ->
  Forall (fun q => passed q = true) l ->
  flips (p :: l) l = 0%nat.
Proof.
  revert p. induction l as [|q l IH]; intros p Hp Hl; [reflexivity |].
  inversion Hl as [| q0 l0 Hq Hl']; subst.
  cbn [flips]. rewrite Hp. cbn [negb andb]. apply IH; assumption.
Qed.

Lemma lifetime_flips (l : list Pipe) :
  lifetime l -> (flips l (tl l) <= 1)%nat.
Proof.
  induction 1 as [p | dt p p' l Hev Hl IH]; [cbn; lia |].
  change (flips (p' :: l) l <= 1)%nat in IH.
  change ((if negb (passed p) && passed p' then 1 else 0) + flips (p' :: l) l
          <= 1)%nat.
  destruct (passed p') eqn:Hp'.
  - rewrite (flips_all_passed p' l Hp' (lifetime_passed p' l Hl Hp')).
    destruct (negb (passed p)); cbn; lia.
  - rewrite andb_false_r. exact IH.
Qed.

Lemma endGame_score (w : App) : score (snd (endGame w)) = score (snd w).
Proof. unfold endGame. destruct (running (fst w)); reflexivity. Qed.

Lemma finishFrame_pipes_score (w : App) :
  pipes (fst (finishFrame w)) = filter keptPipe (pipes (fst w)) /\
  score (snd (finishFrame w)) = score (snd w).
Proof.
  unfold finishFrame, finishFrameWith.
  repeat match goal with
         | |- context [if ?c then _ else _] => destruct c
         end;
    repeat match goal with
           | |- context [endGame ?u] =>
               let H := fresh in
               destruct (endGame_game u) as (_ & _ & H & _);
               rewrite H, (endGame_score u); clear H
           end; split; reflexivity.
Qed.

(** C7: in every frame, each pipe the frame works on either keeps its value
    or is visited by the loop; the pipes of the new state are these, possibly
    filtered; and the score callback is called once for each pipe whose
    [passed] flag goes from false to true in this frame: the score grows by
    their number, and recording callbacks record that many [Scored], followed
    by at most one [Crashed].  A flag that is true stays true, so over the
    successive values of a pipe object the flag goes from false to true at
    most once and never goes back. *)
Theorem scored_once :
  (forall (rnd dt : Q) (w : App),
      exists after : list Pipe,
        Forall2 (evolves dt) (livePipes rnd dt (fst w)) after /\
        (pipes (fst (advance rnd dt w)) = after \/
         pipes (fst (advance rnd dt w)) = filter keptPipe after) /\
        score (snd (advance rnd dt w)) =
        (score (snd w) + Z.of_nat (flips (livePipes rnd dt (fst w)) after))%Z /\
        forall log : list Event,
        exists crash : list Event,
          (crash = [] \/ crash = [Crashed]) /\
          snd (advanceState rnd (fst w, log) dt logScore logCrash) =
          log ++ repeat Scored (flips (livePipes rnd dt (fst w)) after) ++ crash) /\
  (forall (dt : Q) (p p' : Pipe),
      evolves dt p p' -> passed p = true -> passed p' = true) /\
  (forall l : list Pipe, lifetime l -> (flips l (tl l) <= 1)%nat) /\
  (forall (l1 : list Pipe) (p : Pipe) (l2 : list Pipe),
      lifetime (l1 ++ p :: l2) -> passed p = true ->
      Forall (fun q => passed q = true) l2).
Proof.
  split; [| split; [exact evolves_passed | split; [exact lifetime_flips |]]].
  - intros rnd dt w. unfold livePipes.
    destruct (running (fst w)) eqn:Hrun.
    + set (s1 := integrate rnd dt (fst w)).
      exists (fst (scanPipes dt s1 (pipes s1))).
      split; [apply scanPipes_evolves |].
      rewrite (advance_running rnd dt w Hrun). cbn zeta. fold s1.
      assert (Hlog : forall log : list Event,
        exists crash : list Event,
          (crash = [] \/ crash = [Crashed]) /\
          snd (advanceState rnd (fst w, log) dt logScore logCrash) =
          log ++ repeat Scored (flips (pipes s1)
                                      (fst (scanPipes dt s1 (pipes s1)))) ++ crash).
      { intros log. rewrite (advanceState_log rnd dt (fst w) log Hrun). fold s1.
        destruct (frameCrashes rnd dt (fst w));
          [exists [Crashed] | exists []]; split; auto. }
      destruct (snd (scanPipes dt s1 (pipes s1))).
      * match goal with
        | |- context [endGame ?u] =>
            destruct (endGame_game u) as (_ & _ & H & _);
            rewrite H, (endGame_score u)
        end.
        cbn [fst snd pipes set_pipes]. rewrite incrementHooks_score.
        split; [left; reflexivity |]. split; [reflexivity | exact Hlog].
      * match goal with
        | |- context [finishFrame ?u] =>
            destruct (finishFrame_pipes_score u) as (H1 & H2);
            rewrite H1, H2
        end.
        cbn [fst snd pipes set_pipes]. rewrite incrementHooks_score.
        split; [right; reflexivity |]. split; [reflexivity | exact Hlog].
    + exists (pipes (fst w)).
      split; [apply Forall2_evolves_same |].
      rewrite advance_idle by exact Hrun. cbn [fst snd upd].
      rewrite flips_same. split; [left; reflexivity |].
      split; [cbn; lia |].
      intros log. exists []. split; [left; reflexivity |].
      unfold advanceState. cbn [fst]. rewrite Hrun. cbn.
      rewrite app_nil_r. reflexivity.
  - intros l1 p l2 H Hp. apply (lifetime_passed p l2); [| exact Hp].
    apply (lifetime_suffix l1). exact H.
Qed.

Lemma scored_once_witness :
  (flips [crossingPipe; movePipe 0.01 crossingPipe;
          movePipe 0.01 (movePipe 0.01 crossingPipe)]
         [movePipe 0.01 crossingPipe;
          movePipe 0.01 (movePipe 0.01 crossingPipe)] <= 1)%nat.
Proof.
  apply (proj1 (proj2 (proj2 scored_once))
               [crossingPipe; movePipe 0.01 crossingPipe;
                movePipe 0.01 (movePipe 0.01 crossingPipe)]).
  repeat (apply (lifetime_step 0.01); [right; reflexivity |]).
  apply lifetime_one.
Defined.

(** ** Two frames replayed *)

(** A pipe at 20 moves to 18.2 in a frame of 0.01 s: its trailing edge is
    behind the bird, the flag is set and the score goes from 0 to 1; in the
    next frame the score stays at 1. *)
Example scoring_frame :
  let w := upd (set_pipes [crossingPipe]) started in
  score (snd (advance 0.5 0.01 w)) = 1%Z /\
  map passed (pipes (fst (advance 0.5 0.01 w))) = [true] /\
  running (fst (advance 0.5 0.01 w)) = true /\
  score (snd (advance 0.5 0.01 (advance 0.5 0.01 w))) = 1%Z.
Proof. repeat split. Qed.

(** Two pipes crossing in the same frame score twice. *)
Example double_scoring_frame :
  let w := upd (set_pipes [crossingPipe; set_x 22 crossingPipe]) started in
  score (snd (advance 0.5 0.01 w)) = 2%Z /\
  snd (advanceState 0.5 (fst w, []) 0.01 logScore logCrash) = [Scored; Scored].
Proof. repeat split. Qed.

(** A pipe in front of the bird with the gap elsewhere ends the run, and the
    pipes are not filtered in that frame. *)
Example crash_frame :
  let w := upd (set_pipes [trailingPipe; set_x (-160) trailingPipe;
                           {| x := 100; gapCenter := 150; passed := false |}])
               started in
  running (fst (advance 0.5 0.01 w)) = false /\
  status (snd (advance 0.5 0.01 w)) = Over /\
  length (pipes (fst (advance 0.5 0.01 w))) = 3%nat /\
  snd (advanceState 0.5 (fst w, []) 0.01 logScore logCrash) = [Crashed].
Proof. repeat split. Qed.

(** ** The decisive numbers in binary64

    The frames replayed above, with the arithmetic of the source done in
    IEEE 754 double precision: rounding changes none of the comparisons. *)

Module Binary64.
Import PrimFloat.
Local Open Scope float_scope.
Local Set Warnings "-inexact-float".

(** The pipe spawned by a frame of 1.45 s ends the frame at 237. *)
Example spawn_position :
  (1.45 <=? 0 + 1.45) = true /\ 420 + 78 - 180 * 1.45 = 237.
Proof. split; reflexivity. Qed.

(** The bird of that frame: speed capped at 820, position 1509, below the
    ground line at 550. *)
Example first_frame_bird :
  (820 <? 0 + 1800 * 1.45) = true /\
  320 + 820 * 1.45 = 1509 /\
  (640 - 90 <=? 1509 + 16) = true.
Proof. repeat split. Qed.

(** The pipe at -100 moved by a frame of 0.01 s passes the filter with its
    trailing edge left of 0. *)
Example trailing_pipe :
  (- 78 <? (-100 - 180 * 0.01) + 78) = true /\
  ((-100 - 180 * 0.01) + 78 <=? 0) = true.
Proof. repeat split. Qed.

End Binary64.

(** * The whole component *)

(** ** A frame of a run, case by case *)

Lemma integrate_fields (rnd dt : Q) (s : GameState) :
  birdVelocity (integrate rnd dt s) =
    (if Qgtb (birdVelocity s + GRAVITY * dt) MAX_DROP_SPEED
     then MAX_DROP_SPEED else birdVelocity s + GRAVITY * dt) /\
  birdY (integrate rnd dt s) =
    birdY s + birdVelocity (integrate rnd dt s) * dt /\
  spawnTimer (integrate rnd dt s) =
    (if Qgeb (spawnTimer s + dt) PIPE_INTERVAL
     then spawnTimer s + dt - PIPE_INTERVAL else spawnTimer s + dt) /\
  running (integrate rnd dt s) = running s /\
  lastTime (integrate rnd dt s) = lastTime s.
Proof.
  unfold integrate. destruct s as [y v ps st lt r wt]. simpl_state.
  destruct (Qgtb (v + GRAVITY * dt) MAX_DROP_SPEED); simpl_state;
    destruct (Qgeb (st + dt) PIPE_INTERVAL); simpl_state;
    repeat split; reflexivity.
Qed.

Lemma endGame_of_running (s : GameState) (h : Hooks) :
  running s = true ->
  endGame (s, h) = (set_lastTime 0 (set_running false s), gameOver h).
Proof. intros H. unfold endGame. cbn [fst snd]. rewrite H. reflexivity. Qed.

(** The four ways a frame of a run can end: on a pipe, on the ceiling, on
    the ground, or with the run going on. *)
Lemma advance_cases (rnd dt : Q) (w : App) :
  running (fst w) = true ->
  let s1 := integrate rnd dt (fst w) in
  let r := scanPipes dt s1 (pipes s1) in
  let h1 := Nat.iter (flips (pipes s1) (fst r)) incrementHooks (snd w) in
  let s2 := set_pipes (filter keptPipe (map (movePipe dt) (pipes s1))) s1 in
  let groundY := CANVAS_HEIGHT - GROUND_HEIGHT in
  (snd r = true /\
   advance rnd dt w =
   (set_lastTime 0 (set_running false (set_pipes (fst r) s1)), gameOver h1)) \/
  (snd r = false /\ birdY s1 - BIRD_RADIUS <= 0 /\
   advance rnd dt w =
   (set_lastTime 0 (set_running false
      (set_birdVelocity 0 (set_birdY BIRD_RADIUS s2))), gameOver h1)) \/
  (snd r = false /\ 0 < birdY s1 - BIRD_RADIUS /\
   groundY <= birdY s1 + BIRD_RADIUS /\
   advance rnd dt w =
   (set_lastTime 0 (set_running false
      (set_birdVelocity 0 (set_birdY (groundY - BIRD_RADIUS) s2))),
    gameOver h1)) \/
  (snd r = false /\ 0 < birdY s1 - BIRD_RADIUS /\
   birdY s1 + BIRD_RADIUS < groundY /\
   advance rnd dt w = (s2, h1)).
Proof.
  intros Hrun s1 r h1 s2 groundY.
  assert (Hrun1 : running s1 = true).
  { unfold s1. destruct (integrate_fields rnd dt (fst w)) as (_ & _ & _ & H & _).
    rewrite H. exact Hrun. }
  rewrite (advance_running rnd dt w Hrun). cbn zeta. fold s1. fold r. fold h1.
  destruct (snd r) eqn:Hc.
  - left. split; [reflexivity |].
    apply endGame_of_running. exact Hrun1.
  - right.
    assert (Hl : fst r = map (movePipe dt) (pipes s1))
      by (apply scanPipes_no_crash; exact Hc).
    rewrite Hl. fold s2.
    unfold finishFrame, finishFrameWith. simpl_state. fold groundY.
    destruct (Qleb (birdY s1 - BIRD_RADIUS) 0) eqn:Hceil.
    + left. apply Qleb_true in Hceil. repeat split; [exact Hceil |].
      apply endGame_of_running. exact Hrun1.
    + right. apply Qleb_false in Hceil.
      destruct (Qgeb (birdY s1 + BIRD_RADIUS) groundY) eqn:Hground.
      * left. apply Qgeb_true in Hground. repeat split; try assumption.
        apply endGame_of_running. exact Hrun1.
      * right. apply Qgeb_false in Hground. repeat split; assumption.
Qed.

(** ** The score, the best score and the stored best score *)

Lemma incrementHooks_keeps (n : nat) (h : Hooks) :
  (0 <= score h)%Z ->
  inject_Z (score h) <= bestScore h ->
  (forall z, storedBest h = Some z -> bestScore h = inject_Z z) ->
  (0 <= score (Nat.iter n incrementHooks h))%Z /\
  inject_Z (score (Nat.iter n incrementHooks h)) <=
    bestScore (Nat.iter n incrementHooks h) /\
  (forall z, storedBest (Nat.iter n incrementHooks h) = Some z ->
             bestScore (Nat.iter n incrementHooks h) = inject_Z z).
Proof.
  intros H0 Hle Hst. induction n as [|n IH]; [repeat split; assumption |].
  rewrite Nat.iter_succ. destruct IH as (I0 & Ile & Ist).
  set (g := Nat.iter n incrementHooks h) in *.
  unfold incrementHooks. cbv zeta.
  destruct (Qgtb (inject_Z (score g + 1)) (bestScore g)) eqn:E; simpl_state.
  - split; [lia |]. split; [apply Qle_refl |].
    intros z Hz. injection Hz as <-. reflexivity.
  - apply Qgtb_false in E. split; [lia |]. split; [exact E | exact Ist].
Qed.

Lemma incrementHooks_best (n : nat) (h : Hooks) :
  bestScore h <= bestScore (Nat.iter n incrementHooks h).
Proof.
  induction n as [|n IH]; [apply Qle_refl |].
  rewrite Nat.iter_succ.
  set (g := Nat.iter n incrementHooks h) in *.
  unfold incrementHooks. cbv zeta.
  destruct (Qgtb (inject_Z (score g + 1)) (bestScore g)) eqn:E; simpl_state.
  - apply Qgtb_true in E. lra.
  - exact IH.
Qed.

(** The hooks after a frame: the score callback has run some number of
    times, and the status is as before or [Over]. *)
Lemma advance_hooks (rnd dt : Q) (w : App) :
  exists n : nat,
    snd (advance rnd dt w) = Nat.iter n incrementHooks (snd w) \/
    snd (advance rnd dt w) = gameOver (Nat.iter n incrementHooks (snd w)).
Proof.
  destruct (running (fst w)) eqn:Hrun.
  - destruct (advance_cases rnd dt w Hrun)
      as [(_ & E) | [(_ & _ & E) | [(_ & _ & _ & E) | (_ & _ & _ & E)]]];
      rewrite E; eexists; cbn [snd]; eauto.
  - exists 0%nat. left. rewrite advance_idle by exact Hrun. reflexivity.
Qed.

(** ** The frame as [step] runs it *)

Lemma step_running (rnd time : Q) (w : App) :
  running (fst w) = true ->
  step rnd time w =
  advance rnd (stepDelta time (fst w)) (upd (set_lastTime time) w).
Proof.
  intros H. unfold step, stepDelta. rewrite H. cbn [negb].
  destruct (Qeq_bool (lastTime (fst w)) 0); reflexivity.
Qed.

Lemma step_idle (rnd time : Q) (w : App) :
  running (fst w) = false -> step rnd time w = w.
Proof. intros H. unfold step. rewrite H. reflexivity. Qed.

Lemma stepDelta_bounds (time : Q) (s : GameState) :
  lastTime s <= time ->
  0 <= stepDelta time s /\ stepDelta time s <= 0.05.
Proof.
  intros H. unfold stepDelta. split; [| apply Q.le_min_r].
  apply Q.min_glb; [| discriminate].
  destruct (Qeq_bool (lastTime s) 0); unfold Qdiv;
    change (/ 1000) with (1 # 1000); lra.
Qed.

(** ** What holds whatever the inputs *)

Lemma consistent_best_nonneg (w : App) :
  consistent w -> 0 <= bestScore (snd w).
Proof.
  intros (_ & _ & H0 & Hle & _).
  apply Qle_trans with (inject_Z (score (snd w))); [| exact Hle].
  change 0 with (inject_Z 0). rewrite <- Zle_Qle. exact H0.
Qed.

Lemma consistent_startGame (withFlap : bool) (w : App) :
  consistent w -> consistent (startGame withFlap w).
Proof.
  intros H. assert (Hb := consistent_best_nonneg w H).
  destruct H as (_ & _ & _ & _ & Hst).
  unfold consistent, startGame.
  destruct withFlap; simpl_state; unfold_consts;
    (split; [split; reflexivity |]);
    (split; [intros _; split; reflexivity |]);
    (split; [lia |]); (split; [exact Hb | exact Hst]).
Qed.

Lemma consistent_handleFlap (w : App) :
  consistent w -> consistent (handleFlap w).
Proof.
  intros H. unfold handleFlap.
  destruct (negb (Status_eqb (status (snd w)) Running));
    [apply consistent_startGame; exact H | exact H].
Qed.

Lemma consistent_advance (rnd dt : Q) (w : App) :
  consistent w -> consistent (advance rnd dt w).
Proof.
  intros (Hsync & Hy & H0 & Hle & Hst).
  destruct (running (fst w)) eqn:Hrun.
  - assert (Hstat : status (snd w) = Running) by (apply Hsync; reflexivity).
    destruct (integrate_fields rnd dt (fst w)) as (_ & _ & _ & Hr1 & _).
    destruct (advance_cases rnd dt w Hrun)
      as [(_ & E) | [(_ & _ & E) | [(_ & _ & _ & E) | (_ & Hc & Hg & E)]]];
      rewrite E; clear E; unfold consistent, gameOver; simpl_state;
      match goal with
      | |- context [Nat.iter ?n incrementHooks (snd w)] =>
          destruct (incrementHooks_keeps n (snd w) H0 Hle Hst) as (K0 & Kle & Kst);
          pose proof (incrementHooks_status n (snd w)) as Ks
      end.
    1-3: split; [split; discriminate |];
         split; [discriminate |];
         split; [exact K0 |]; split; [exact Kle | exact Kst].
    rewrite Ks, Hr1.
    split; [split; intros _; assumption |].
    split; [intros _; split; lra |].
    split; [exact K0 |]; split; [exact Kle | exact Kst].
  - rewrite advance_idle by exact Hrun.
    unfold consistent. simpl_state. rewrite Hrun.
    split; [exact Hsync |]. split; [discriminate |].
    split; [exact H0 |]. split; [exact Hle | exact Hst].
Qed.

Lemma consistent_step (rnd time : Q) (w : App) :
  consistent w -> consistent (step rnd time w).
Proof.
  intros H. destruct (running (fst w)) eqn:Hrun.
  - rewrite step_running by exact Hrun.
    apply consistent_advance. exact H.
  - rewrite step_idle by exact Hrun. exact H.
Qed.

Lemma consistent_handle (i : Input) (w : App) :
  consistent w -> consistent (handle i w).
Proof.
  intros H. destruct i as [rnd time | code | key | |]; cbn [handle].
  - apply consistent_step. exact H.
  - unfold onKeyDown.
    destruct (String.eqb code Space || String.eqb code ArrowUp);
      [apply consistent_handleFlap; exact H |].
    destruct (String.eqb code KeyR);
      [apply consistent_startGame; exact H | exact H].
  - unfold onKeyDownContainer.
    destruct (String.eqb key Enter);
      [apply consistent_handleFlap; exact H | exact H].
  - apply consistent_handleFlap. exact H.
  - apply consistent_handleFlap. exact H.
Qed.

Lemma consistent_run (l : list Input) (w : App) :
  consistent w -> consistent (run l w).
Proof.
  revert w. induction l as [|i l IH]; intros w H; [exact H |].
  unfold run. cbn [fold_left]. apply IH. apply consistent_handle. exact H.
Qed.

Lemma consistent_loadBest (toNumber : String.string -> option Q)
      (stored : option String.string) :
  consistent (loadBest toNumber stored mounted).
Proof.
  assert (Hm : consistent mounted).
  { unfold consistent, mounted. simpl_state.
    split; [split; discriminate |]. split; [discriminate |].
    split; [lia |]. split; [discriminate | discriminate]. }
  unfold loadBest. destruct stored as [text |]; [| exact Hm].
  destruct (String.eqb text String.EmptyString); [exact Hm |].
  destruct (toNumber text) as [parsed |]; [| exact Hm].
  destruct (Qgtb parsed 0) eqn:E; [| exact Hm].
  apply Qgtb_true in E.
  unfold consistent, mounted. simpl_state.
  split; [split; discriminate |]. split; [discriminate |].
  split; [lia |]. split; [| discriminate].
  apply Qlt_le_weak. exact E.
Qed.

(** ** The pipes along the frames *)

Lemma movePipe_x (dt : Q) (p : Pipe) :
  x (movePipe dt p) = x p - PIPE_SPEED * dt.
Proof.
  unfold movePipe.
  destruct (crossesBird (set_x (x p - PIPE_SPEED * dt) p)); reflexivity.
Qed.

Lemma evolves_x (dt : Q) (p p' : Pipe) :
  0 <= dt -> evolves dt p p' ->
  x p - PIPE_SPEED * dt <= x p' /\ x p' <= x p.
Proof.
  intros Hdt [-> | ->]; [| rewrite movePipe_x]; unfold_consts; split; lra.
Qed.

Lemma evolves_flagMatches (dt : Q) (p p' : Pipe) :
  0 <= dt -> evolves dt p p' -> flagMatches p -> flagMatches p'.
Proof.
  intros Hdt [-> | ->] Hp; [exact Hp |].
  unfold flagMatches in *. rewrite movePipe_x. unfold movePipe.
  destruct (crossesBird (set_x (x p - PIPE_SPEED * dt) p)) eqn:E.
  - apply crossesBird_true_iff in E. destruct E as [_ E]. simpl_state.
    split; [intros _; exact E | reflexivity].
  - simpl_state. split.
    + intros Hpass. apply Hp in Hpass. unfold_consts. lra.
    + intros Hlt. unfold crossesBird in E. simpl_state.
      apply Qltb_true in Hlt. rewrite Hlt, andb_true_r in E.
      apply negb_false_iff in E. exact E.
Qed.

Lemma Forall_evolves (dt : Q) (P R : Pipe -> Prop) (l l' : list Pipe) :
  (forall p p', evolves dt p p' -> P p -> R p') ->
  Forall2 (evolves dt) l l' -> Forall P l -> Forall R l'.
Proof.
  intros Hstep H2. induction H2 as [|p p' l l' Hev _ IH]; intros Hl;
    [constructor |].
  inversion Hl; subst. constructor; [eapply Hstep; eassumption | auto].
Qed.

Lemma scanPipes_leftToRight (dt : Q) (s : GameState) (l : list Pipe) :
  0 <= dt -> leftToRight l -> leftToRight (fst (scanPipes dt s l)).
Proof.
  intros Hdt. unfold leftToRight.
  induction l as [|p l IH]; intros Hs; [constructor |].
  apply StronglySorted_inv in Hs. destruct Hs as [Hs Hp].
  cbn [scanPipes].
  destruct (hitsPipe s (movePipe dt p)); cbn [fst].
  - constructor; [exact Hs |].
    eapply Forall_impl; [| exact Hp].
    intros q Hq. cbn beta in *. rewrite movePipe_x. unfold_consts. lra.
  - constructor; [apply IH; exact Hs |].
    apply (Forall_evolves dt (fun q => x p <= x q) _ l);
      [| apply scanPipes_evolves | exact Hp].
    intros q q' Hev Hq. rewrite movePipe_x.
    destruct (evolves_x dt q q' Hdt Hev) as [Hlow _]. lra.
Qed.

Lemma filter_leftToRight (f : Pipe -> bool) (l : list Pipe) :
  leftToRight l -> leftToRight (filter f l).
Proof.
  unfold leftToRight. induction l as [|p l IH]; intros Hs; [constructor |].
  apply StronglySorted_inv in Hs. destruct Hs as [Hs Hp].
  cbn [filter]. destruct (f p); [| apply IH; exact Hs].
  constructor; [apply IH; exact Hs |].
  apply Forall_forall. intros q Hq. apply filter_In in Hq.
  rewrite Forall_forall in Hp. apply Hp. apply Hq.
Qed.

Lemma Forall_filter (P : Pipe -> Prop) (f : Pipe -> bool) (l : list Pipe) :
  Forall P l -> Forall P (filter f l).
Proof.
  rewrite !Forall_forall. intros H q Hq. apply filter_In in Hq.
  apply H. apply Hq.
Qed.

Lemma leftToRight_snoc (l : list Pipe) (a : Pipe) :
  leftToRight l -> Forall (fun p => x p <= x a) l -> leftToRight (l ++ [a]).
Proof.
  unfold leftToRight. induction l as [|p l IH]; intros Hs Hb; cbn [app].
  - constructor; constructor.
  - apply StronglySorted_inv in Hs. destruct Hs as [Hs Hp].
    inversion Hb; subst.
    constructor; [apply IH; assumption |].
    apply Forall_app. split; [exact Hp |]. constructor; [assumption | constructor].
Qed.

(** The pipes a frame of a run starts from keep the order, the bound and the
    flags. *)
Lemma integrate_pipes_orderly (rnd dt : Q) (s : GameState) :
  leftToRight (pipes s) ->
  Forall (fun p => x p <= CANVAS_WIDTH + PIPE_WIDTH) (pipes s) ->
  Forall flagMatches (pipes s) ->
  leftToRight (pipes (integrate rnd dt s)) /\
  Forall (fun p => x p <= CANVAS_WIDTH + PIPE_WIDTH) (pipes (integrate rnd dt s)) /\
  Forall flagMatches (pipes (integrate rnd dt s)).
Proof.
  intros Hs Hb Hf. rewrite integrate_pipes.
  destruct (Qgeb (spawnTimer s + dt) PIPE_INTERVAL);
    [| rewrite app_nil_r; auto].
  split; [apply leftToRight_snoc; assumption |].
  split; apply Forall_app; (split; [assumption |]);
    (constructor; [| constructor]).
  - apply Qle_refl.
  - unfold flagMatches. simpl_state. unfold_consts.
    split; [discriminate | intros H; vm_compute in H; discriminate].
Qed.

Lemma integrate_spawnTimer (rnd dt : Q) (s : GameState) :
  0 <= dt -> dt < PIPE_INTERVAL ->
  0 <= spawnTimer s -> spawnTimer s < PIPE_INTERVAL ->
  0 <= spawnTimer (integrate rnd dt s) /\
  spawnTimer (integrate rnd dt s) < PIPE_INTERVAL.
Proof.
  intros Hdt Hmax H0 H1.
  destruct (integrate_fields rnd dt s) as (_ & _ & -> & _).
  destruct (Qgeb (spawnTimer s + dt) PIPE_INTERVAL) eqn:E;
    [apply Qgeb_true in E | apply Qgeb_false in E]; split; lra.
Qed.

Lemma orderly_advance (rnd dt : Q) (w : App) :
  0 <= dt -> dt < PIPE_INTERVAL ->
  orderly w -> orderly (advance rnd dt w).
Proof.
  intros Hdt Hmax (Hv & Hs & Hb & Hf & Ht0 & Ht1).
  destruct (running (fst w)) eqn:Hrun.
  - destruct (integrate_pipes_orderly rnd dt (fst w) Hs Hb Hf) as (Is & Ib & If).
    destruct (integrate_spawnTimer rnd dt (fst w) Hdt Hmax Ht0 Ht1) as (It0 & It1).
    assert (Iv := integrate_velocity rnd dt (fst w) Hdt (proj1 Hv)).
    set (s1 := integrate rnd dt (fst w)) in *.
    assert (Hev := scanPipes_evolves dt s1 (pipes s1)).
    assert (Ss := scanPipes_leftToRight dt s1 (pipes s1) Hdt Is).
    assert (Sb : Forall (fun p => x p <= CANVAS_WIDTH + PIPE_WIDTH)
                        (fst (scanPipes dt s1 (pipes s1)))).
    { apply (Forall_evolves dt (fun p => x p <= CANVAS_WIDTH + PIPE_WIDTH)
                            _ (pipes s1)); [| exact Hev | exact Ib].
      intros p p' Hp Hle. destruct (evolves_x dt p p' Hdt Hp). lra. }
    assert (Sf : Forall flagMatches (fst (scanPipes dt s1 (pipes s1)))).
    { apply (Forall_evolves dt flagMatches _ (pipes s1));
        [| exact Hev | exact If].
      intros p p'. apply evolves_flagMatches. exact Hdt. }
    destruct (advance_cases rnd dt w Hrun)
      as [(Hc & E) | [(Hc & _ & E) | [(Hc & _ & _ & E) | (Hc & _ & _ & E)]]];
      fold s1 in E, Hc; rewrite E; clear E;
      try rewrite <- (scanPipes_no_crash _ _ _ Hc);
      unfold orderly, speedBounded; simpl_state.
    + repeat split; try assumption; apply Iv.
    + repeat split; try (unfold_consts; lra); try assumption;
        first [apply filter_leftToRight | apply Forall_filter]; assumption.
    + repeat split; try (unfold_consts; lra); try assumption;
        first [apply filter_leftToRight | apply Forall_filter]; assumption.
    + repeat split; try apply Iv; try assumption;
        first [apply filter_leftToRight | apply Forall_filter]; assumption.
  - rewrite advance_idle by exact Hrun.
    unfold orderly, speedBounded. simpl_state. repeat split; try assumption;
      apply Hv.
Qed.

Lemma orderly_startGame (withFlap : bool) (w : App) :
  orderly (startGame withFlap w).
Proof.
  unfold orderly, speedBounded, leftToRight, startGame.
  destruct withFlap; simpl_state; unfold_consts;
    repeat split; try constructor; try lra; try discriminate.
Qed.

Lemma orderly_handleFlap (w : App) : orderly w -> orderly (handleFlap w).
Proof.
  intros H. unfold handleFlap.
  destruct (negb (Status_eqb (status (snd w)) Running));
    [apply orderly_startGame |].
  destruct H as (_ & H). unfold orderly, speedBounded, flap. simpl_state.
  split; [unfold_consts; split; lra | exact H].
Qed.

Lemma advance_lastTime (rnd dt : Q) (w : App) :
  lastTime (fst (advance rnd dt w)) = lastTime (fst w) \/
  lastTime (fst (advance rnd dt w)) = 0.
Proof.
  destruct (running (fst w)) eqn:Hrun.
  - destruct (integrate_fields rnd dt (fst w)) as (_ & _ & _ & _ & Hl).
    destruct (advance_cases rnd dt w Hrun)
      as [(_ & E) | [(_ & _ & E) | [(_ & _ & _ & E) | (_ & _ & _ & E)]]];
      rewrite E; simpl_state; auto.
  - rewrite advance_idle by exact Hrun. left. reflexivity.
Qed.

(** One input keeps the order of things, and the time of the last frame
    stays behind the time stamps seen so far. *)
Lemma orderly_handle (t : Q) (i : Input) (w : App) :
  0 <= t -> lastTime (fst w) <= t -> ascending t [i] -> orderly w ->
  orderly (handle i w) /\
  lastTime (fst (handle i w)) <=
    match i with Tick _ time => time | _ => t end.
Proof.
  intros Ht Hl Hi Ho.
  assert (Hflap : orderly (handleFlap w) /\ lastTime (fst (handleFlap w)) <= t).
  { split; [apply orderly_handleFlap; exact Ho |].
    unfold handleFlap.
    destruct (negb (Status_eqb (status (snd w)) Running)); [exact Ht | exact Hl]. }
  destruct i as [rnd time | code | key | |]; cbn [handle].
  - cbn in Hi. destruct Hi as [Hi _].
    assert (Hlt : lastTime (fst w) <= time) by lra.
    destruct (running (fst w)) eqn:Hrun.
    + rewrite step_running by exact Hrun.
      destruct (stepDelta_bounds time (fst w) Hlt) as [D0 D1].
      split.
      * apply orderly_advance; [exact D0 | unfold_consts; lra | exact Ho].
      * destruct (advance_lastTime rnd (stepDelta time (fst w))
                                   (upd (set_lastTime time) w)) as [-> | ->];
          simpl_state; lra.
    + rewrite step_idle by exact Hrun. split; [exact Ho | exact Hlt].
  - unfold onKeyDown.
    destruct (String.eqb code Space || String.eqb code ArrowUp); [exact Hflap |].
    destruct (String.eqb code KeyR);
      [split; [apply orderly_startGame | exact Ht] | split; assumption].
  - unfold onKeyDownContainer.
    destruct (String.eqb key Enter); [exact Hflap | split; assumption].
  - exact Hflap.
  - exact Hflap.
Qed.

Lemma orderly_run (l : list Input) (t : Q) (w : App) :
  0 <= t -> lastTime (fst w) <= t -> ascending t l -> orderly w ->
  orderly (run l w).
Proof.
  revert t w. induction l as [|i l IH]; intros t w Ht Hl Ha Ho; [exact Ho |].
  unfold run. cbn [fold_left].
  assert (Hi : ascending t [i]).
  { destruct i; cbn in Ha |- *; tauto. }
  destruct (orderly_handle t i w Ht Hl Hi Ho) as [Ho' Hl'].
  destruct i as [rnd time | code | key | |]; cbn [ascending] in Ha.
  - destruct Ha as [Hle Ha]. apply (IH time); try assumption. lra.
  - apply (IH t); assumption.
  - apply (IH t); assumption.
  - apply (IH t); assumption.
  - apply (IH t); assumption.
Qed.

Lemma orderly_loadBest (toNumber : String.string -> option Q)
      (stored : option String.string) :
  orderly (loadBest toNumber stored mounted) /\
  lastTime (fst (loadBest toNumber stored mounted)) = 0.
Proof.
  assert (Hm : orderly mounted /\ lastTime (fst mounted) = 0).
  { unfold orderly, speedBounded, leftToRight, mounted. simpl_state.
    unfold_consts. repeat split; try constructor; try lra; discriminate. }
  unfold loadBest. destruct stored as [text |]; [| exact Hm].
  destruct (String.eqb text String.EmptyString); [exact Hm |].
  destruct (toNumber text) as [parsed |]; [| exact Hm].
  destruct (Qgtb parsed 0); exact Hm.
Qed.

(** ** Every state the component can reach *)

Lemma consistent_handleSeen (seen : Status) (i : Input) (w : App) :
  consistent w -> consistent (handleSeen seen i w).
Proof.
  intros H.
  assert (Hflap : consistent (handleFlapSeen seen w)).
  { unfold handleFlapSeen.
    destruct (negb (Status_eqb seen Running));
      [apply consistent_startGame; exact H | exact H]. }
  destruct i as [rnd time | code | key | |]; cbn [handleSeen].
  - apply consistent_step. exact H.
  - unfold onKeyDownSeen.
    destruct (String.eqb code Space || String.eqb code ArrowUp);
      [exact Hflap |].
    destruct (String.eqb code KeyR);
      [apply consistent_startGame; exact H | exact H].
  - unfold onKeyDownContainerSeen.
    destruct (String.eqb key Enter); [exact Hflap | exact H].
  - exact Hflap.
  - exact Hflap.
Qed.

Lemma consistent_session (l : list Happening) (v : Rendered) :
  consistent (fst v) -> consistent (fst (session l v)).
Proof.
  revert v. induction l as [|e l IH]; intros v H; [exact H |].
  unfold session. cbn [fold_left]. apply IH.
  destruct e as [i |]; cbn [react fst];
    [apply consistent_handleSeen; exact H | exact H].
Qed.

(** X1: whatever inputs arrive and whenever React renders, so also when a
    handler acts on a status that is out of date, the status that was last
    set is [Running] exactly when the game object is running; hence, once
    React has rendered, the overlay is shown exactly when the engine is not
    running. *)
Theorem status_tracks_engine
        (toNumber : String.string -> option Q) (stored : option String.string)
        (l : list Happening) :
  (status (snd (fst (session l (firstRender toNumber stored)))) = Running <->
   running (fst (fst (session l (firstRender toNumber stored)))) = true) /\
  overlayShown (react Commit (session l (firstRender toNumber stored))) =
  negb (running (fst (fst (session l (firstRender toNumber stored))))).
Proof.
  destruct (consistent_session l (firstRender toNumber stored)
                               (consistent_loadBest toNumber stored))
    as (Hsync & _).
  split; [exact Hsync |]. unfold overlayShown. cbn [react snd fst].
  destruct (running (fst (fst (session l (firstRender toNumber stored))))).
  - rewrite (proj2 Hsync eq_refl). reflexivity.
  - destruct (status (snd (fst (session l (firstRender toNumber stored)))));
      try reflexivity.
    assert (false = true) by (apply Hsync; reflexivity). discriminate.
Qed.

(** Before that render the overlay can lag: after the frame that ends the
    run the game object is not running, the status set is [Over], and the
    render on screen still has [Running] and hides the overlay. *)
Example overlay_lags_until_render :
  running (fst (fst (session crashUnrendered (firstRender noNumber None))))
  = false /\
  status (snd (fst (session crashUnrendered (firstRender noNumber None))))
  = Over /\
  snd (session crashUnrendered (firstRender noNumber None)) = Running /\
  overlayShown (session crashUnrendered (firstRender noNumber None)) = false.
Proof. vm_compute. repeat split. Qed.

(** X2: in every state reached from the mount, while the run is going the
    bird is strictly between the ceiling and the ground, whatever the time
    steps were. *)
Theorem bird_inside_while_running
        (toNumber : String.string -> option Q) (stored : option String.string)
        (l : list Input) :
  running (fst (run l (loadBest toNumber stored mounted))) = true ->
  0 < birdY (fst (run l (loadBest toNumber stored mounted))) - BIRD_RADIUS /\
  birdY (fst (run l (loadBest toNumber stored mounted))) + BIRD_RADIUS <
    CANVAS_HEIGHT - GROUND_HEIGHT.
Proof.
  intros Hrun.
  destruct (consistent_run l _ (consistent_loadBest toNumber stored))
    as (_ & Hy & _).
  destruct (Hy Hrun). split; lra.
Qed.

Lemma bird_inside_while_running_witness :
  0 < birdY (fst (run sampleInputs (loadBest noNumber None mounted))) - BIRD_RADIUS.
Proof.
  apply (bird_inside_while_running noNumber None sampleInputs).
  reflexivity.
Defined.

(** X3: in every state reached from the mount, whatever was stored, the
    score is not negative and not above the best score. *)
Theorem score_never_above_best
        (toNumber : String.string -> option Q) (stored : option String.string)
        (l : list Input) :
  (0 <= score (snd (run l (loadBest toNumber stored mounted))))%Z /\
  inject_Z (score (snd (run l (loadBest toNumber stored mounted)))) <=
    bestScore (snd (run l (loadBest toNumber stored mounted))).
Proof.
  destruct (consistent_run l _ (consistent_loadBest toNumber stored))
    as (_ & _ & H0 & Hle & _).
  split; assumption.
Qed.

(** X4: in every state reached from the mount, a best score written to the
    storage during the session is the best score shown. *)
Theorem stored_best_is_best
        (toNumber : String.string -> option Q) (stored : option String.string)
        (l : list Input) (z : Z) :
  storedBest (snd (run l (loadBest toNumber stored mounted))) = Some z ->
  bestScore (snd (run l (loadBest toNumber stored mounted))) = inject_Z z.
Proof.
  destruct (consistent_run l _ (consistent_loadBest toNumber stored))
    as (_ & _ & _ & _ & Hst).
  apply Hst.
Qed.

Lemma stored_best_is_best_witness :
  bestScore (snd (run scoringSession (loadBest noNumber None mounted))) =
  inject_Z 1.
Proof.
  apply (stored_best_is_best noNumber None scoringSession 1).
  vm_compute. reflexivity.
Defined.

(** X5: no input ever lowers the best score. *)
Theorem best_never_decreases (l : list Input) (w : App) :
  bestScore (snd w) <= bestScore (snd (run l w)).
Proof.
  assert (Hadv : forall rnd dt u,
             bestScore (snd u) <= bestScore (snd (advance rnd dt u))).
  { intros rnd dt u. destruct (advance_hooks rnd dt u) as (n & [-> | ->]);
      apply incrementHooks_best. }
  assert (Hstart : forall b u,
             bestScore (snd u) <= bestScore (snd (startGame b u))).
  { intros b u. apply Qle_refl. }
  assert (Hflap : forall u, bestScore (snd u) <= bestScore (snd (handleFlap u))).
  { intros u. unfold handleFlap.
    destruct (negb (Status_eqb (status (snd u)) Running)); apply Qle_refl. }
  revert w. induction l as [|i l IH]; intros w; [apply Qle_refl |].
  unfold run. cbn [fold_left].
  apply Qle_trans with (bestScore (snd (handle i w))); [| apply IH].
  destruct i as [rnd time | code | key | |]; cbn [handle].
  - unfold step. destruct (negb (running (fst w))); [apply Qle_refl |].
    cbv zeta.
    match goal with
    | |- _ <= bestScore (snd (advance ?r ?d ?u)) =>
        apply Qle_trans with (bestScore (snd u)); [| apply Hadv]
    end.
    destruct (Qeq_bool (lastTime (fst w)) 0); apply Qle_refl.
  - unfold onKeyDown.
    destruct (String.eqb code Space || String.eqb code ArrowUp); [apply Hflap |].
    destruct (String.eqb code KeyR); [apply Hstart | apply Qle_refl].
  - unfold onKeyDownContainer.
    destruct (String.eqb key Enter); [apply Hflap | apply Qle_refl].
  - apply Hflap.
  - apply Hflap.
Qed.

(** ** Sessions whose frames come in order *)

(** X6: when the time stamps of the frames do not go back, the bird's
    velocity stays within [MAX_DROP_SPEED] in absolute value in every state
    reached from the mount: [step] never hands a negative time step to
    [advanceState]. *)
Theorem velocity_bounded_under_step
        (toNumber : String.string -> option Q) (stored : option String.string)
        (l : list Input) :
  ascending 0 l ->
  Qabs (birdVelocity (fst (run l (loadBest toNumber stored mounted)))) <=
  MAX_DROP_SPEED.
Proof.
  intros Ha. destruct (orderly_loadBest toNumber stored) as [Ho Hl].
  apply Qabs_Qle_condition.
  apply (orderly_run l 0 _ (Qle_refl 0)); [rewrite Hl; apply Qle_refl | exact Ha | exact Ho].
Qed.

Lemma velocity_bounded_under_step_witness :
  Qabs (birdVelocity (fst (run scoringSession (loadBest noNumber None mounted))))
  <= MAX_DROP_SPEED.
Proof.
  apply (velocity_bounded_under_step noNumber None scoringSession).
  vm_compute. repeat split; discriminate.
Defined.

(** X7: when the time stamps of the frames do not go back, the pipes of
    every state reached from the mount are in order from left to right, and
    none is right of the spawn position [CANVAS_WIDTH + PIPE_WIDTH]. *)
Theorem pipes_left_to_right
        (toNumber : String.string -> option Q) (stored : option String.string)
        (l : list Input) :
  ascending 0 l ->
  StronglySorted (fun p q => x p <= x q)
                 (pipes (fst (run l (loadBest toNumber stored mounted)))) /\
  Forall (fun p => x p <= CANVAS_WIDTH + PIPE_WIDTH)
         (pipes (fst (run l (loadBest toNumber stored mounted)))).
Proof.
  intros Ha. destruct (orderly_loadBest toNumber stored) as [Ho Hl].
  destruct (orderly_run l 0 _ (Qle_refl 0)
                        ltac:(rewrite Hl; apply Qle_refl) Ha Ho)
    as (_ & Hs & Hb & _).
  split; assumption.
Qed.

Lemma pipes_left_to_right_witness :
  Forall (fun p => x p <= CANVAS_WIDTH + PIPE_WIDTH)
         (pipes (fst (run scoringSession (loadBest noNumber None mounted)))).
Proof.
  apply (pipes_left_to_right noNumber None scoringSession).
  vm_compute. repeat split; discriminate.
Defined.

(** X8: when the time stamps of the frames do not go back, in every state
    reached from the mount a pipe is flagged as passed exactly when its
    trailing edge is left of the bird's left edge; a flagged pipe no longer
    overlaps the bird and cannot be hit, wherever the bird is. *)
Theorem passed_means_behind
        (toNumber : String.string -> option Q) (stored : option String.string)
        (l : list Input) (p : Pipe) :
  ascending 0 l ->
  In p (pipes (fst (run l (loadBest toNumber stored mounted)))) ->
  (passed p = true <-> x p + PIPE_WIDTH < BIRD_X - BIRD_RADIUS) /\
  (passed p = true ->
   overlapsHorizontally p = false /\ forall state, hitsPipe state p = false).
Proof.
  intros Ha Hin. destruct (orderly_loadBest toNumber stored) as [Ho Hl].
  destruct (orderly_run l 0 _ (Qle_refl 0)
                        ltac:(rewrite Hl; apply Qle_refl) Ha Ho)
    as (_ & _ & _ & Hf & _).
  rewrite Forall_forall in Hf. specialize (Hf p Hin).
  split; [exact Hf |]. intros Hp. apply Hf in Hp.
  assert (Hover : overlapsHorizontally p = false).
  { apply behind_bird_no_overlap. apply Qlt_le_weak. exact Hp. }
  split; [exact Hover |]. intros state. unfold hitsPipe. rewrite Hover.
  reflexivity.
Qed.

(** X9: when the time stamps of the frames do not go back, the spawn timer
    of every state reached from the mount is in [0, PIPE_INTERVAL): a frame of
    [step] is at most 0.05 s long, so no spawn is ever overdue after a
    frame. *)
Theorem spawnTimer_within_interval
        (toNumber : String.string -> option Q) (stored : option String.string)
        (l : list Input) :
  ascending 0 l ->
  0 <= spawnTimer (fst (run l (loadBest toNumber stored mounted))) /\
  spawnTimer (fst (run l (loadBest toNumber stored mounted))) < PIPE_INTERVAL.
Proof.
  intros Ha. destruct (orderly_loadBest toNumber stored) as [Ho Hl].
  destruct (orderly_run l 0 _ (Qle_refl 0)
                        ltac:(rewrite Hl; apply Qle_refl) Ha Ho)
    as (_ & _ & _ & _ & H0 & H1).
  split; assumption.
Qed.

Lemma spawnTimer_within_interval_witness :
  0 <= spawnTimer (fst (run scoringSession (loadBest noNumber None mounted))).
Proof.
  apply (spawnTimer_within_interval noNumber None scoringSession).
  vm_compute. repeat split; discriminate.
Defined.

Lemma passed_means_behind_witness :
  overlapsHorizontally
    (hd samplePipe
        (pipes (fst (run scoringSession (loadBest noNumber None mounted)))))
  = false.
Proof.
  destruct (passed_means_behind noNumber None scoringSession
              (hd samplePipe
                  (pipes (fst (run scoringSession
                                   (loadBest noNumber None mounted))))))
    as [_ H].
  - vm_compute. repeat split; discriminate.
  - vm_compute. left. reflexivity.
  - destruct H as [H _]; [vm_compute; reflexivity | exact H].
Defined.

(** ** The frame that [step] runs *)

(** X10: during a run, when the time stamp is not before the last one,
    [step] records the time stamp and runs [advanceState] with a time step
    between 0 and 0.05; the step is 0 when no frame was recorded yet
    ([lastTime] is 0), as in the first frame after a start. *)
Theorem step_time_step (rnd time : Q) (w : App) :
  running (fst w) = true ->
  lastTime (fst w) <= time ->
  exists dt : Q,
    0 <= dt /\ dt <= 0.05 /\
    (lastTime (fst w) == 0 -> dt == 0) /\
    step rnd time w = advance rnd dt (upd (set_lastTime time) w).
Proof.
  intros Hrun Hl. exists (stepDelta time (fst w)).
  destruct (stepDelta_bounds time (fst w) Hl) as [D0 D1].
  split; [exact D0 |]. split; [exact D1 |].
  split; [| apply step_running; exact Hrun].
  intros Hz. unfold stepDelta.
  apply Qeq_bool_iff in Hz. rewrite Hz.
  rewrite Q.min_l.
  - unfold Qdiv. ring.
  - unfold Qdiv. setoid_replace ((time - time) * / 1000) with 0 by ring.
    discriminate.
Qed.

Lemma step_time_step_witness :
  exists dt : Q,
    0 <= dt /\ dt <= 0.05 /\
    (lastTime (fst started) == 0 -> dt == 0) /\
    step 0.5 1000 started = advance 0.5 dt (upd (set_lastTime 1000) started).
Proof.
  apply (step_time_step 0.5 1000 started); [reflexivity | discriminate].
Defined.

(** X11: a frame of a run in which no pipe is hit leaves the bird between
    the ceiling and the ground; the run ends exactly when the bird reached
    one of them, and then the bird sits on it with velocity 0. *)
Theorem boundary_hit_clamps (rnd dt : Q) (w : App) :
  running (fst w) = true ->
  snd (scanPipes dt (integrate rnd dt (fst w))
                 (pipes (integrate rnd dt (fst w)))) = false ->
  BIRD_RADIUS <= birdY (fst (advance rnd dt w)) /\
  birdY (fst (advance rnd dt w)) <= CANVAS_HEIGHT - GROUND_HEIGHT - BIRD_RADIUS /\
  (running (fst (advance rnd dt w)) = false <->
   birdY (integrate rnd dt (fst w)) - BIRD_RADIUS <= 0 \/
   CANVAS_HEIGHT - GROUND_HEIGHT <= birdY (integrate rnd dt (fst w)) + BIRD_RADIUS) /\
  (running (fst (advance rnd dt w)) = false ->
   birdVelocity (fst (advance rnd dt w)) = 0 /\
   (birdY (fst (advance rnd dt w)) = BIRD_RADIUS \/
    birdY (fst (advance rnd dt w)) =
      CANVAS_HEIGHT - GROUND_HEIGHT - BIRD_RADIUS)).
Proof.
  intros Hrun Hno.
  destruct (integrate_fields rnd dt (fst w)) as (_ & _ & _ & Hr1 & _).
  destruct (advance_cases rnd dt w Hrun)
    as [(Hc & _) | [(_ & Hy & E) | [(_ & Hy & Hg & E) | (_ & Hy & Hg & E)]]];
    [rewrite Hc in Hno; discriminate | | |];
    rewrite E; clear E; simpl_state.
  - split; [apply Qle_refl |]. split; [unfold_consts; lra |].
    split; [split; auto |]. intros _. split; [reflexivity | left; reflexivity].
  - split; [unfold_consts; lra |]. split; [apply Qle_refl |].
    split; [split; auto |]. intros _. split; [reflexivity | right; reflexivity].
  - rewrite Hr1, Hrun. split; [lra |]. split; [lra |].
    split; [| discriminate].
    split; [discriminate |]. intros [H | H]; lra.
Qed.

Lemma boundary_hit_clamps_witness :
  birdY (fst (advance 0.5 1.45 started)) =
  CANVAS_HEIGHT - GROUND_HEIGHT - BIRD_RADIUS.
Proof.
  destruct (boundary_hit_clamps 0.5 1.45 started) as (_ & _ & _ & H);
    [reflexivity | reflexivity |].
  destruct (H eq_refl) as [_ [H1 | H1]]; [discriminate H1 | exact H1].
Defined.

(** X12: a pipe that the filter at the end of a frame removes has its flag
    set: while the run goes on, no pipe leaves the list without having been
    scored. *)
Theorem removed_pipes_were_scored (rnd dt : Q) (w : App) (p : Pipe) :
  running (fst w) = true ->
  running (fst (advance rnd dt w)) = true ->
  In p (map (movePipe dt) (pipes (integrate rnd dt (fst w)))) ->
  ~ In p (pipes (fst (advance rnd dt w))) ->
  passed p = true.
Proof.
  intros Hrun Hstill Hin Hout.
  rewrite (advance_still_running rnd dt w Hrun Hstill) in Hout.
  simpl_state.
  assert (Hk : keptPipe p = false).
  { destruct (keptPipe p) eqn:E; [| reflexivity].
    exfalso. apply Hout. apply filter_In. split; assumption. }
  apply in_map_iff in Hin. destruct Hin as (q & <- & _).
  apply Qgtb_false in Hk. rewrite movePipe_x in Hk.
  unfold movePipe.
  destruct (crossesBird (set_x (x q - PIPE_SPEED * dt) q)) eqn:E;
    [reflexivity |].
  unfold crossesBird in E. simpl_state.
  assert (Hlt : Qltb (x q - PIPE_SPEED * dt + PIPE_WIDTH) (BIRD_X - BIRD_RADIUS)
                = true).
  { apply Qltb_true. unfold_consts. lra. }
  rewrite Hlt, andb_true_r in E. apply negb_false_iff in E. exact E.
Qed.

Lemma removed_pipes_were_scored_witness :
  passed (movePipe 0.05 (set_x (-150) trailingPipe)) = true.
Proof.
  apply (removed_pipes_were_scored 0.5 0.05 withLeavingPipe
           (movePipe 0.05 (set_x (-150) trailingPipe))).
  - reflexivity.
  - reflexivity.
  - left. reflexivity.
  - vm_compute. intros H. exact H.
Defined.

(** X13: a frame cannot carry a pipe from in front of the bird to behind
    it: if the pipe's left edge is not yet left of the bird's right edge and
    the pipes move by at most the width of a pipe and of the bird, the pipe is
    not scored in this frame.  A frame of [step], at most 0.05 s long, moves
    the pipes by 9. *)
Theorem no_score_without_overlap (dt : Q) (p : Pipe) :
  0 <= dt ->
  PIPE_SPEED * dt <= PIPE_WIDTH + 2 * BIRD_RADIUS ->
  passed p = false ->
  BIRD_X + BIRD_RADIUS <= x p ->
  passed (movePipe dt p) = false /\
  (dt <= 0.05 -> overlapsHorizontally (movePipe dt p) = true \/
                 BIRD_X + BIRD_RADIUS <= x (movePipe dt p)).
Proof.
  intros Hdt Hmove Hp Hx.
  assert (Hno : crossesBird (set_x (x p - PIPE_SPEED * dt) p) = false).
  { unfold crossesBird. simpl_state. apply andb_false_iff. right.
    apply Qltb_false. unfold_consts. lra. }
  split.
  - unfold movePipe. rewrite Hno. exact Hp.
  - intros Hcap.
    destruct (Qlt_le_dec (x (movePipe dt p)) (BIRD_X + BIRD_RADIUS)) as [H | H];
      [left | right; exact H].
    unfold overlapsHorizontally. rewrite movePipe_x in *.
    apply andb_true_iff. split; [apply Qgtb_true; exact H |].
    apply Qltb_true. unfold_consts. lra.
Qed.

Lemma no_score_without_overlap_witness :
  passed (movePipe 0.05 (set_x 140 samplePipe)) = false.
Proof.
  apply (no_score_without_overlap 0.05 (set_x 140 samplePipe));
    [discriminate | discriminate | reflexivity | discriminate].
Defined.

(** X14: a frame adds at most one pipe to the list, however long its time
    step is. *)
Theorem at_most_one_spawn (rnd dt : Q) (w : App) :
  (length (pipes (fst (advance rnd dt w))) <= S (length (pipes (fst w))))%nat.
Proof.
  assert (Hint : (length (pipes (integrate rnd dt (fst w)))
                  <= S (length (pipes (fst w))))%nat).
  { rewrite integrate_pipes, length_app.
    destruct (Qgeb (spawnTimer (fst w) + dt) PIPE_INTERVAL); cbn; lia. }
  destruct (running (fst w)) eqn:Hrun.
  - assert (Hscan : length (fst (scanPipes dt (integrate rnd dt (fst w))
                                           (pipes (integrate rnd dt (fst w)))))
                    = length (pipes (integrate rnd dt (fst w)))).
    { symmetry. eapply Forall2_length. apply scanPipes_evolves. }
    assert (Hfilter : (length (filter keptPipe
                                 (map (movePipe dt)
                                      (pipes (integrate rnd dt (fst w)))))
                       <= length (pipes (integrate rnd dt (fst w))))%nat).
    { eapply Nat.le_trans; [apply filter_length_le |].
      rewrite length_map. apply Nat.le_refl. }
    destruct (advance_cases rnd dt w Hrun)
      as [(_ & E) | [(_ & _ & E) | [(_ & _ & _ & E) | (_ & _ & _ & E)]]];
      rewrite E; simpl_state; lia.
  - rewrite advance_idle by exact Hrun. simpl_state. lia.
Qed.

(** ** The flap inputs *)

(** X15: a click, a touch, Space, ArrowUp on the window and Enter on the
    game shell all run [handleFlap], which always leaves the bird's velocity
    at [FLAP_STRENGTH].  When the render on screen has the status that was
    last set, it leaves a running game with status [Running].  When that
    render still has [Running], it does nothing else, so a flap that arrives
    after the frame that ended the run and before the next render does not
    restart the game; when that render has another status, a fresh run
    starts, with score 0 and the best score kept. *)
Theorem flap_inputs
        (toNumber : String.string -> option Q) (stored : option String.string)
        (l : list Happening) :
  let w := fst (session l (firstRender toNumber stored)) in
  let seen := snd (session l (firstRender toNumber stored)) in
  (handleSeen seen MouseDown w = handleFlapSeen seen w /\
   handleSeen seen TouchStart w = handleFlapSeen seen w /\
   handleSeen seen (KeyDown Space) w = handleFlapSeen seen w /\
   handleSeen seen (KeyDown ArrowUp) w = handleFlapSeen seen w /\
   handleSeen seen (ContainerKeyDown Enter) w = handleFlapSeen seen w) /\
  birdVelocity (fst (handleFlapSeen seen w)) = FLAP_STRENGTH /\
  (seen = status (snd w) ->
   running (fst (handleFlapSeen seen w)) = true /\
   status (snd (handleFlapSeen seen w)) = Running) /\
  (seen = Running ->
   handleFlapSeen seen w = upd (set_birdVelocity FLAP_STRENGTH) w /\
   running (fst (handleFlapSeen seen w)) = running (fst w)) /\
  (seen <> Running ->
   fst (handleFlapSeen seen w) =
     set_birdVelocity FLAP_STRENGTH (set_running true createInitialState) /\
   score (snd (handleFlapSeen seen w)) = 0%Z /\
   bestScore (snd (handleFlapSeen seen w)) = bestScore (snd w)).
Proof.
  intros w seen.
  destruct (consistent_session l (firstRender toNumber stored)
                               (consistent_loadBest toNumber stored))
    as (Hsync & _).
  fold w in Hsync.
  split; [repeat split |].
  unfold handleFlapSeen.
  split; [destruct (negb (Status_eqb seen Running)); reflexivity |].
  split; [| split].
  - intros Hseen. rewrite Hseen.
    destruct (Status_eqb (status (snd w)) Running) eqn:E; cbn [negb].
    + assert (Hst : status (snd w) = Running)
        by (destruct (status (snd w)); try discriminate; reflexivity).
      unfold flap. simpl_state. split; [apply Hsync; exact Hst | exact Hst].
    + split; reflexivity.
  - intros ->. cbn [Status_eqb negb]. unfold flap. split; reflexivity.
  - intros Hseen.
    assert (E : Status_eqb seen Running = false)
      by (destruct seen; try reflexivity; contradiction).
    rewrite E. cbn [negb]. repeat split.
Qed.

(** A click after the frame that ended the run and before the render, and
    the same click after the render. *)
Example flap_before_and_after_render :
  running (fst (fst (session (crashUnrendered ++ [Arrives MouseDown])
                             (firstRender noNumber None)))) = false /\
  running (fst (fst (session (crashUnrendered ++ [Commit; Arrives MouseDown])
                             (firstRender noNumber None)))) = true.
Proof. vm_compute. split; reflexivity. Qed.

(** ** What is drawn and what is hit *)

(** X16: for a bird whose square reaches below the top of the upper pipe
    body and above the bottom of the lower one (-6 and 6 below the ground
    line), the collision test of the loop is true exactly when that square
    meets one of the two pipe bodies that [drawScene] paints. *)
Theorem collision_matches_bodies (state : GameState) (pipe : Pipe) :
  -6 < birdY state + BIRD_RADIUS ->
  birdY state - BIRD_RADIUS < CANVAS_HEIGHT - GROUND_HEIGHT + 6 ->
  (hitsPipe state pipe = true <->
   birdBoxMeets state (upperBody pipe) \/ birdBoxMeets state (lowerBody pipe)).
Proof.
  intros Hup Hdown. unfold hitsPipe, overlapsHorizontally, birdBoxMeets,
    upperBody, lowerBody, gapTop, gapBottom.
  cbn [left top width height].
  rewrite !andb_true_iff, orb_true_iff, !Qgtb_true, !Qltb_true.
  unfold_consts. split.
  - intros [[H1 H2] [H | H]]; [left | right]; repeat split; lra.
  - intros [(H1 & H2 & H3 & H4) | (H1 & H2 & H3 & H4)];
      (split; [split; lra |]); [left | right]; lra.
Qed.


Lemma collision_matches_bodies_witness :
  hitsPipe (fst started) blockingPipe = true <->
  birdBoxMeets (fst started) (upperBody blockingPipe) \/
  birdBoxMeets (fst started) (lowerBody blockingPipe).
Proof.
  apply (collision_matches_bodies (fst started) blockingPipe); reflexivity.
Defined.

(** X17: the caps that [drawScene] paints stick out 6 on each side of the
    pipe body, and the collision test ignores them: a bird whose right edge is
    between the left edge of a cap and the left edge of the body, at the
    height of the cap, meets the painted cap and is not hit. *)
Theorem caps_are_not_hit (state : GameState) (pipe : Pipe) :
  x pipe - 6 < BIRD_X + BIRD_RADIUS ->
  BIRD_X + BIRD_RADIUS <= x pipe ->
  gapTop pipe - 26 < birdY state + BIRD_RADIUS ->
  birdY state - BIRD_RADIUS < gapTop pipe ->
  birdBoxMeets state (upperCap pipe) /\ hitsPipe state pipe = false.
Proof.
  intros H1 H2 H3 H4. split.
  - unfold birdBoxMeets, upperCap. cbn [left top width height].
    unfold_consts. repeat split; lra.
  - unfold hitsPipe, overlapsHorizontally.
    assert (E : Qgtb (BIRD_X + BIRD_RADIUS) (x pipe) = false)
      by (apply Qgtb_false; exact H2).
    rewrite E. reflexivity.
Qed.

Lemma caps_are_not_hit_witness :
  birdBoxMeets (fst started) (upperCap capPipe) /\
  hitsPipe (fst started) capPipe = false.
Proof.
  apply (caps_are_not_hit (fst started) capPipe); reflexivity || discriminate.
Defined.

(** X18: a pipe that the filter of [advanceState] removes is no longer on
    the canvas: each of the four rectangles painted for it, stroke included,
    ends left of the canvas. *)
Theorem removed_pipes_are_off_canvas (pipe : Pipe) :
  keptPipe pipe = false ->
  Forall leftOfCanvas (pipeRects pipe).
Proof.
  intros H. apply Qgtb_false in H.
  unfold pipeRects, leftOfCanvas, upperBody, upperCap, lowerBody, lowerCap,
    lineWidth.
  repeat constructor; cbn [left top width height]; unfold_consts; lra.
Qed.

Lemma removed_pipes_are_off_canvas_witness :
  Forall leftOfCanvas (pipeRects (set_x (-160) trailingPipe)).
Proof.
  apply (removed_pipes_are_off_canvas (set_x (-160) trailingPipe)).
  reflexivity.
Defined.

(** X19: a pipe enters from outside the canvas: after the frame that spawns
    it, with a time step that moves the pipes by at most 69 (0.05 s moves them
    by 9), each of its four rectangles, stroke included, starts right of the
    canvas. *)
Theorem spawned_pipes_start_off_canvas (rnd dt : Q) :
  0 <= dt ->
  PIPE_SPEED * dt <= 69 ->
  Forall rightOfCanvas (pipeRects (movePipe dt (spawnedPipe rnd))).
Proof.
  intros H0 H1.
  unfold pipeRects, rightOfCanvas, upperBody, upperCap, lowerBody, lowerCap,
    lineWidth.
  repeat constructor; cbn [left top width height]; rewrite movePipe_x;
    unfold spawnedPipe; simpl_state; unfold_consts; lra.
Qed.

Lemma spawned_pipes_start_off_canvas_witness :
  Forall rightOfCanvas (pipeRects (movePipe 0.05 (spawnedPipe 0.5))).
Proof.
  apply (spawned_pipes_start_off_canvas 0.5 0.05); discriminate.
Defined.

(** X20: for every draw in [0, 1), the two caps painted for the spawned pipe
    lie wholly between the ceiling and the ground line, and the two bodies
    have a positive height: the margin of 40 in [randomGapCenter] leaves room
    for the caps, which are 26 high. *)
Theorem caps_fit_on_canvas (rnd : Q) :
  0 <= rnd -> rnd < 1 ->
  0 < top (upperCap (spawnedPipe rnd)) /\
  top (lowerCap (spawnedPipe rnd)) + height (lowerCap (spawnedPipe rnd))
    < CANVAS_HEIGHT - GROUND_HEIGHT /\
  0 < height (upperBody (spawnedPipe rnd)) /\
  0 < height (lowerBody (spawnedPipe rnd)).
Proof.
  intros H0 H1.
  unfold upperCap, lowerCap, upperBody, lowerBody, gapTop, gapBottom,
    spawnedPipe.
  cbn [left top width height gapCenter].
  rewrite randomGapCenter_affine. unfold_consts. repeat split; lra.
Qed.

Lemma caps_fit_on_canvas_witness :
  0 < top (upperCap (spawnedPipe 0.5)).
Proof.
  apply (caps_fit_on_canvas 0.5); [discriminate | reflexivity].
Defined.

(** ** A run without flaps ends *)

Lemma times_zero (e : Q) : times 0 e == 0.
Proof. unfold times. cbn. ring. Qed.

Lemma times_succ (n : nat) (e : Q) : times (S n) e == times n e + e.
Proof.
  unfold times. rewrite Nat2Z.inj_succ, <- Z.add_1_r, inject_Z_plus. ring.
Qed.

Lemma times_nonneg (n : nat) (e : Q) : 0 <= e -> 0 <= times n e.
Proof.
  intros He. unfold times. apply Qmult_le_0_compat; [| exact He].
  change 0 with (inject_Z 0). rewrite <- Zle_Qle. apply Nat2Z.is_nonneg.
Qed.

Lemma times_le (n m : nat) (e : Q) :
  0 <= e -> (n <= m)%nat -> times n e <= times m e.
Proof.
  intros He Hnm. induction Hnm as [|m Hnm IH]; [apply Qle_refl |].
  rewrite times_succ. lra.
Qed.

Lemma performAll_cons (a : Action) (l : list Action) (w : App) :
  performAll (a :: l) w = performAll l (perform a w).
Proof. reflexivity. Qed.

Lemma frames_stay_over (d : Q) (l : list Action) (w : App) :
  Forall (frameOfAtLeast d) l ->
  running (fst w) = false ->
  running (fst (performAll l w)) = false.
Proof.
  intros Hl. revert w. induction Hl as [|a l Ha Hl IH]; intros w Hw;
    [exact Hw |].
  unfold performAll. cbn [fold_left]. apply IH.
  destruct a as [rnd dt | | b]; cbn in Ha; try contradiction.
  cbn [perform]. rewrite advance_idle by exact Hw. exact Hw.
Qed.

(** A frame after which the run goes on: the bird has the velocity and the
    position of the integration, strictly between ceiling and ground. *)
Lemma frame_alive (rnd dt : Q) (w : App) :
  running (fst (advance rnd dt w)) = true ->
  running (fst w) = true /\
  birdVelocity (fst (advance rnd dt w)) =
    (if Qgtb (birdVelocity (fst w) + GRAVITY * dt) MAX_DROP_SPEED
     then MAX_DROP_SPEED else birdVelocity (fst w) + GRAVITY * dt) /\
  birdY (fst (advance rnd dt w)) =
    birdY (fst w) + birdVelocity (fst (advance rnd dt w)) * dt /\
  0 < birdY (fst (advance rnd dt w)) - BIRD_RADIUS /\
  birdY (fst (advance rnd dt w)) + BIRD_RADIUS < CANVAS_HEIGHT - GROUND_HEIGHT.
Proof.
  intros Hstill.
  destruct (running (fst w)) eqn:Hrun.
  - destruct (integrate_fields rnd dt (fst w)) as (Hv & Hy & _).
    destruct (advance_cases rnd dt w Hrun)
      as [(_ & E) | [(_ & _ & E) | [(_ & _ & _ & E) | (_ & Hc & Hg & E)]]];
      rewrite E in Hstill |- *; simpl_state; try discriminate.
    rewrite <- Hv. repeat split; assumption.
  - rewrite advance_idle in Hstill by exact Hrun. simpl_state.
    rewrite Hrun in Hstill. discriminate.
Qed.

(** While the run goes on, the velocity climbs by at least [GRAVITY * d] per
    frame, up to the cap. *)
Lemma frames_velocity (d b : Q) (l : list Action) (w : App) :
  0 <= d ->
  Forall (frameOfAtLeast d) l ->
  running (fst (performAll l w)) = true ->
  b <= MAX_DROP_SPEED ->
  b <= birdVelocity (fst w) + times (length l) (GRAVITY * d) ->
  b <= birdVelocity (fst (performAll l w)).
Proof.
  intros Hd Hl. revert w. induction Hl as [|a l Ha Hl IH]; intros w Hend Hb Hv.
  - cbn [length] in Hv. rewrite times_zero in Hv. unfold performAll.
    cbn [fold_left]. lra.
  - rewrite performAll_cons in *.
    destruct a as [rnd dt | | c]; cbn in Ha; try contradiction.
    cbn [perform] in *.
    assert (Hw1 : running (fst (advance rnd dt w)) = true).
    { destruct (running (fst (advance rnd dt w))) eqn:E; [reflexivity |].
      rewrite (frames_stay_over d l _ Hl E) in Hend. discriminate. }
    destruct (frame_alive rnd dt w Hw1) as (_ & Hv1 & _).
    apply IH; [exact Hend | exact Hb |].
    cbn [length] in Hv. rewrite times_succ in Hv.
    assert (Hn := times_nonneg (length l) (GRAVITY * d)).
    rewrite Hv1.
    destruct (Qgtb (birdVelocity (fst w) + GRAVITY * dt) MAX_DROP_SPEED);
      unfold_consts; nra.
Qed.

(** Once the bird falls, while the run goes on it drops by at least [c * d]
    per frame and stays above the ground. *)
Lemma frames_position (d c : Q) (l : list Action) (w : App) :
  0 <= d -> 0 <= c -> c <= GRAVITY * d -> c <= MAX_DROP_SPEED ->
  Forall (frameOfAtLeast d) l ->
  running (fst (performAll l w)) = true ->
  0 <= birdVelocity (fst w) ->
  birdY (fst w) + BIRD_RADIUS < CANVAS_HEIGHT - GROUND_HEIGHT ->
  birdY (fst w) + times (length l) (c * d) <= birdY (fst (performAll l w)) /\
  birdY (fst (performAll l w)) + BIRD_RADIUS < CANVAS_HEIGHT - GROUND_HEIGHT.
Proof.
  intros Hd Hc0 Hc1 Hc2 Hl. revert w.
  induction Hl as [|a l Ha Hl IH]; intros w Hend Hv Hy.
  - cbn [length]. rewrite times_zero. unfold performAll. cbn [fold_left].
    split; [lra | exact Hy].
  - rewrite performAll_cons in *.
    destruct a as [rnd dt | | e]; cbn in Ha; try contradiction.
    cbn [perform] in *.
    assert (Hw1 : running (fst (advance rnd dt w)) = true).
    { destruct (running (fst (advance rnd dt w))) eqn:E; [reflexivity |].
      rewrite (frames_stay_over d l _ Hl E) in Hend. discriminate. }
    destruct (frame_alive rnd dt w Hw1) as (_ & Hv1 & Hy1 & _ & Hg1).
    assert (Hv1' : c <= birdVelocity (fst (advance rnd dt w))).
    { rewrite Hv1.
      destruct (Qgtb (birdVelocity (fst w) + GRAVITY * dt) MAX_DROP_SPEED);
        unfold_consts; nra. }
    destruct (IH (advance rnd dt w) Hend ltac:(lra) Hg1) as [IH1 IH2].
    split; [| exact IH2].
    cbn [length]. rewrite times_succ.
    assert (Hstep : c * d <= birdVelocity (fst (advance rnd dt w)) * dt) by nra.
    rewrite Hy1 in IH1. lra.
Qed.

Lemma performAll_app (l1 l2 : list Action) (w : App) :
  performAll (l1 ++ l2) w = performAll l2 (performAll l1 w).
Proof. unfold performAll. apply fold_left_app. Qed.

(** X21: a run without flaps ends.  Take frames whose time steps are all at
    least [d], a millisecond or more; [k1] of them enough for gravity to
    cancel an upward velocity of [MAX_DROP_SPEED], and [k2] enough to fall
    from the ceiling to the ground at the speed reached after one frame from
    rest, each with a margin of 1.  From any state whose velocity is at least
    [- MAX_DROP_SPEED], after more than [k1 + k2] such frames the run is
    over. *)
Theorem run_ends_without_flaps
        (d : Q) (k1 k2 : nat) (l : list Action) (w : App) :
  1 # 1000 <= d ->
  MAX_DROP_SPEED + 1 <= times k1 (GRAVITY * d) ->
  CANVAS_HEIGHT - GROUND_HEIGHT - 2 * BIRD_RADIUS + 1 <=
    times k2 (Qmin (GRAVITY * d) MAX_DROP_SPEED * d) ->
  - MAX_DROP_SPEED <= birdVelocity (fst w) ->
  Forall (frameOfAtLeast d) l ->
  (k1 + k2 < length l)%nat ->
  running (fst (performAll l w)) = false.
Proof.
  intros Hms Hk1 Hk2 Hv Hl Hlen.
  assert (Hd : 0 < d) by lra.
  destruct (running (fst (performAll l w))) eqn:Hend; [exfalso | reflexivity].
  set (c := Qmin (GRAVITY * d) MAX_DROP_SPEED) in *.
  assert (Hc1 : c <= GRAVITY * d) by apply Q.le_min_l.
  assert (Hc2 : c <= MAX_DROP_SPEED) by apply Q.le_min_r.
  assert (Hc0 : 0 <= c).
  { apply Q.min_glb; unfold_consts; lra. }
  rewrite <- (firstn_skipn k1 l) in Hend, Hl.
  apply Forall_app in Hl. destruct Hl as [Hl1 Hl2].
  rewrite performAll_app in Hend.
  assert (Hlen1 : length (firstn k1 l) = k1) by (apply firstn_length_le; lia).
  assert (Hlen2 : (k2 < length (skipn k1 l))%nat) by (rewrite length_skipn; lia).
  set (w1 := performAll (firstn k1 l) w) in *.
  destruct (skipn k1 l) as [|a l2] eqn:El2; [cbn in Hlen2; lia |].
  cbn [length] in Hlen2. inversion Hl2 as [|a' l' Ha Hl2' Eq]; subst a' l'.
  rewrite performAll_cons in Hend.
  destruct a as [rnd dt | | e]; cbn in Ha; try contradiction.
  cbn [perform] in Hend.
  assert (Hw2 : running (fst (advance rnd dt w1)) = true).
  { destruct (running (fst (advance rnd dt w1))) eqn:E; [reflexivity |].
    rewrite (frames_stay_over d l2 _ Hl2' E) in Hend. discriminate. }
  destruct (frame_alive rnd dt w1 Hw2) as (Hw1 & Hv2 & _ & Hy2 & Hg2).
  assert (Hv1 : 0 <= birdVelocity (fst w1)).
  { apply (frames_velocity d 0 (firstn k1 l) w); try assumption.
    - lra.
    - unfold_consts. lra.
    - rewrite Hlen1. lra. }
  assert (Hv2' : 0 <= birdVelocity (fst (advance rnd dt w1))).
  { rewrite Hv2.
    destruct (Qgtb (birdVelocity (fst w1) + GRAVITY * dt) MAX_DROP_SPEED);
      unfold_consts; nra. }
  destruct (frames_position d c l2 (advance rnd dt w1)
                            ltac:(lra) Hc0 Hc1 Hc2 Hl2' Hend Hv2' Hg2)
    as [Hfall Hground].
  assert (Hmono : times k2 (c * d) <= times (length l2) (c * d)).
  { apply times_le; [nra | lia]. }
  lra.
Qed.

Lemma run_ends_without_flaps_witness :
  running (fst (performAll idleFrames started)) = false.
Proof.
  apply (run_ends_without_flaps (1 # 60) 28 1038 idleFrames started).
  - discriminate.
  - discriminate.
  - discriminate.
  - discriminate.
  - apply Forall_forall. intros a Ha. apply repeat_spec in Ha. subst a.
    discriminate.
  - unfold idleFrames. rewrite repeat_length. lia.
Defined.

(** ** The tilt of the bird *)

(** X22: the tilt [drawScene] gives the bird is between -0.5 and 0.85
    whatever the status and the velocity, and during a run it never
    decreases when the velocity grows. *)
Theorem birdAngle_bounded_monotone (st : Status) (s1 s2 : GameState) :
  (-0.5 <= birdAngle st s1 /\ birdAngle st s1 <= 0.85) /\
  (birdVelocity s1 <= birdVelocity s2 ->
   birdAngle Running s1 <= birdAngle Running s2).
Proof.
  split.
  - destruct st; cbn [birdAngle]; try (split; discriminate).
    split; [apply Q.le_max_l |].
    apply Q.max_lub; [discriminate |].
    apply Qle_trans with 0.7; [apply Q.le_min_r | discriminate].
  - intros Hv. cbn [birdAngle].
    apply Q.max_le_compat_l. apply Q.min_le_compat_r.
    unfold Qdiv. apply Qmult_le_compat_r; [exact Hv | discriminate].
Qed.
